(** * A verification development for the blog starter's TypeScript sources

    The development embeds these pieces of the repository:

    - the Bun static-asset server ([server.ts]: [loadStaticAssets],
      [serveAsset], [startServer]),
    - the blog API client ([getCookie], [getAuthHeaders], the request
      each exported function hands to [fetch] and what it makes of the
      response),
    - the theme API client ([makeAuthenticatedRequest] and its writes),
    - the theme loader and registry ([validateThemeData],
      [normalizeThemeData], [loadThemes], [getLocalTheme],
      [setDefaultTheme], [getThemeRegistryStatus]),
    - the [useAuth] hook over [localStorage],
    - the font and colour helpers of the theme hooks
      ([normalizeFontName], [isWebFont], [getThemeFonts],
      [processColorValue]),
    - the editor's [generateSlug] and the blog list's pagination.

    Maps keyed by strings are stdpp [gmap]s, thrown exceptions are an
    explicit [Throw] result, and what the JavaScript runtime provides
    (hashing, compression, path joining, the disk, URI decoding) is a
    record of functions the definitions take as an argument.  The
    definitions come first, module by module; the properties follow. *)

From Stdlib Require Import ZArith NArith QArith List Ascii String Strings.Byte.
From stdpp Require Import base option list gmap strings fin_maps.

Local Close Scope Q_scope.
Local Open Scope string_scope.
Local Open Scope list_scope.

(** ** JavaScript values shared by the modules *)

Module JS.

(** The double-quote character, built from its code. *)
Definition dquote : ascii := ascii_of_nat 34.

(** [s || d] for a string [s] that may be [null]: the empty string is falsy. *)
Definition truthy_string (s : string) : bool :=
  match s with EmptyString => false | String _ _ => true end.

Definition truthy_opt (o : option string) : bool :=
  match o with Some s => truthy_string s | None => false end.

Definition str_or (o : option string) (d : string) : string :=
  match o with
  | Some s => if truthy_string s then s else d
  | None => d
  end.

(** [hay.includes(needle)] *)
Fixpoint includes (hay needle : string) : bool :=
  if String.prefix needle hay then true
  else match hay with
       | EmptyString => false
       | String _ rest => includes rest needle
       end.

(** [s.split(c)] for a one-character separator. *)
Fixpoint split (c : ascii) (s : string) : list string :=
  match s with
  | EmptyString => [EmptyString]
  | String a rest =>
      if Ascii.eqb a c then EmptyString :: split c rest
      else match split c rest with
           | [] => [String a EmptyString]
           | w :: ws => String a w :: ws
           end
  end.

(** [parts.join(sep)] *)
Definition join (sep : string) (parts : list string) : string :=
  String.concat sep parts.

#[local] Set Warnings "-register-all".

(** JavaScript values as the client and the theme loader handle them:
    JSON data, [undefined] for an absent property, and [File] objects. *)
Inductive value :=
| Undefined
| Null
| Bool (b : bool)
| Num (q : Q)
| Str (s : string)
| Arr (items : list value)
| Obj (props : list (string * value))
| File (name : string).

(** ToBoolean *)
Definition truthy (v : value) : bool :=
  match v with
  | Undefined | Null => false
  | Bool b => b
  | Num q => negb (Qnum q =? 0)%Z
  | Str s => truthy_string s
  | Arr _ | Obj _ | File _ => true
  end.

(** [typeof v === 'object'] *)
Definition typeof_object (v : value) : bool :=
  match v with
  | Null | Arr _ | Obj _ | File _ => true
  | Undefined | Bool _ | Num _ | Str _ => false
  end.

(** Own properties of an object literal, in insertion order. *)
Fixpoint lookup_prop (k : string) (props : list (string * value)) : value :=
  match props with
  | [] => Undefined
  | (k', v) :: rest => if String.eqb k' k then v else lookup_prop k rest
  end.

(** [o[k] = v]: an existing key keeps its place, a new key goes last. *)
Fixpoint assign_prop (k : string) (v : value) (props : list (string * value))
  : list (string * value) :=
  match props with
  | [] => [(k, v)]
  | (k', v') :: rest =>
      if String.eqb k' k then (k', v) :: rest
      else (k', v') :: assign_prop k v rest
  end.

(** Exceptions: a computation returns a value or throws. *)
Inductive result (E A : Type) : Type :=
| Ok (a : A)
| Throw (e : E).
Arguments Ok {E A} a.
Arguments Throw {E A} e.

Definition bind {E A B} (m : result E A) (k : A -> result E B) : result E B :=
  match m with
  | Ok a => k a
  | Throw e => Throw e
  end.

End JS.

Notation "'await' x <- m 'in' k" := (JS.bind m (fun x => k))
  (at level 10, x name, m at level 100, k at level 200).

(** ** The static-asset server (server.ts) *)

Module AssetServer.
Import JS.

Definition bytes := list byte.

Definition CLIENT_DIR : string := ".".
Definition MAX_ASSET_SIZE : N := 5 * 1024 * 1024.
Definition ENABLE_GZIP : bool := true.
Definition ENABLE_ETAGS : bool := true.
Definition GZIP_THRESHOLD : N := 1024.

(** An entry of the [assets] map.  Absent properties are [None];
    [content: null] of a lazily served file is [None] as well. *)
Record Asset := mkAsset {
  content : option bytes;
  type : string;
  etag : option string;
  gzipped : option bytes;
  path : option string
}.

(** What [Bun.file(p)] answers for a path. *)
Record BunFile := mkBunFile {
  file_exists : bool;
  file_size : N;
  file_type : string;
  arrayBuffer : option bytes   (* [None]: reading the file throws *)
}.

Inductive Body :=
| NoBody
| BytesBody (b : bytes)
| TextBody (s : string)
| FileBody (p : string).

(** A response; header names are kept as the code writes them. *)
Record Response := mkResponse {
  status : Z;
  headers : gmap string string;
  body : Body
}.

(** A request: the pathname of its URL and its headers, keyed by their
    lower-case names as [Headers.get] looks them up. *)
Record Request := mkRequest {
  pathname : string;
  req_headers : gmap string string
}.

Inductive StartupError :=
| ReaddirError
| ReadError (p : string).

(** [digest("hex")]: two lower-case hexadecimal digits per byte. *)
Definition hex_digit (n : N) : ascii :=
  match String.get (N.to_nat n) "0123456789abcdef" with
  | Some c => c
  | None => "0"%char
  end.

Definition hex_of_byte (b : byte) : string :=
  let n := Byte.to_N b in
  String (hex_digit (n / 16)) (String (hex_digit (n mod 16)) EmptyString).

Fixpoint hex (bs : bytes) : string :=
  match bs with
  | [] => EmptyString
  | b :: rest => hex_of_byte b +:+ hex rest
  end.

Definition CACHE_CONTROL : string := "public, max-age=31536000, immutable".
Definition OCTET_STREAM : string := "application/octet-stream".

(** The runtime the server runs on: Node's [path.join],
    [createHash("md5")] (the raw digest), [Bun.gzipSync], the text
    decoding of [file.text()], the disk as [readdir] and [Bun.file] see
    it, and the port read from the environment. *)
Record Runtime := mkRuntime {
  path_join : string -> string -> string;
  md5 : bytes -> bytes;
  gzipSync : bytes -> bytes;
  decode_text : bytes -> string;
  readdir : string -> option (list string);   (* [None]: it throws *)
  Bun_file : string -> BunFile;
  PORT : Z
}.

Section Server.
Variable rt : Runtime.

Definition generateETag (c : bytes) : string :=
  String dquote (hex (md5 rt c) +:+ String dquote EmptyString).

Definition gzipContent (c : bytes) : bytes := gzipSync rt c.

(** One iteration of the loop of [loadStaticAssets]. *)
Definition loadAsset (relativePath : string) (assets : gmap string Asset)
  : result StartupError (gmap string Asset) :=
  let filepath := path_join rt CLIENT_DIR relativePath in
  let file := Bun_file rt filepath in
  if negb (file_exists file) || (file_size file =? 0)%N then Ok assets
  else
    let route := "/" +:+ join "/" (split "\"%char relativePath) in
    let fileSize := file_size file in
    let shouldLoadInMemory := (fileSize <=? MAX_ASSET_SIZE)%N in
    if shouldLoadInMemory then
      match arrayBuffer file with
      | None => Throw (ReadError filepath)
      | Some c =>
          let asset :=
            {| content := Some c;
               type := str_or (Some (file_type file)) OCTET_STREAM;
               etag := if ENABLE_ETAGS then Some (generateETag c) else None;
               gzipped :=
                 if ENABLE_GZIP && (GZIP_THRESHOLD <? N.of_nat (length c))%N
                 then Some (gzipContent c) else None;
               path := None |} in
          Ok (<[route := asset]> assets)
      end
    else
      Ok (<[route := {| content := None;
                        type := str_or (Some (file_type file)) OCTET_STREAM;
                        etag := None;
                        gzipped := None;
                        path := Some filepath |}]> assets).

Fixpoint loadAssets (files : list string) (assets : gmap string Asset)
  : result StartupError (gmap string Asset) :=
  match files with
  | [] => Ok assets
  | relativePath :: rest =>
      await assets' <- loadAsset relativePath assets in
      loadAssets rest assets'
  end.

Definition loadStaticAssets (assets : gmap string Asset)
  : result StartupError (gmap string Asset) :=
  match readdir rt CLIENT_DIR with
  | None => Throw ReaddirError
  | Some files => loadAssets files assets
  end.

Definition serveAsset (assets : gmap string Asset) (request : Request)
    (route : string) : option Response :=
  match assets !! route with
  | None => None
  | Some asset =>
      let acceptEncoding :=
        str_or (req_headers request !! "accept-encoding") EmptyString in
      let ifNoneMatch := req_headers request !! "if-none-match" in
      if ENABLE_ETAGS && truthy_opt (etag asset)
         && bool_decide (ifNoneMatch = etag asset)
      then Some {| status := 304; headers := ∅; body := NoBody |}
      else
        let headers0 : gmap string string :=
          <["Cache-Control" := CACHE_CONTROL]>
            (<["Content-Type" := type asset]> ∅) in
        let headers1 :=
          match etag asset with
          | Some e => if truthy_string e then <["ETag" := e]> headers0
                      else headers0
          | None => headers0
          end in
        match content asset with
        | Some c =>
            match gzipped asset with
            | Some g =>
                if includes acceptEncoding "gzip"
                then Some {| status := 200;
                             headers := <["Content-Encoding" := "gzip"]> headers1;
                             body := BytesBody g |}
                else Some {| status := 200; headers := headers1;
                             body := BytesBody c |}
            | None => Some {| status := 200; headers := headers1;
                              body := BytesBody c |}
            end
        | None =>
            if truthy_opt (path asset)
            then Some {| status := 200; headers := headers1;
                         body := FileBody (default EmptyString (path asset)) |}
            else None
        end
  end.

(** The [fetch] handler given to [Bun.serve]. *)
Definition fetch (assets : gmap string Asset) (indexHtml : string)
    (request : Request) : Response :=
  match serveAsset assets request (pathname request) with
  | Some staticResponse => staticResponse
  | None => {| status := 200;
               headers := {[ "Content-Type" := "text/html" ]};
               body := TextBody indexHtml |}
  end.

(** [file.text()]: throws when the file cannot be read. *)
Definition file_text (file : BunFile) : option string :=
  if file_exists file then decode_text rt <$> arrayBuffer file else None.

(** What [Bun.serve] is given: the port and the state its [fetch]
    closure captures. *)
Record Server := mkServer {
  port : Z;
  served_assets : gmap string Asset;
  served_index : string
}.

Definition startServer (assets : gmap string Asset)
  : result StartupError Server :=
  await assets' <- loadStaticAssets assets in
  let indexPath := path_join rt CLIENT_DIR "index.html" in
  match file_text (Bun_file rt indexPath) with
  | None => Throw (ReadError indexPath)
  | Some indexHtml =>
      Ok {| port := PORT rt; served_assets := assets';
            served_index := indexHtml |}
  end.

(** The process after the module's last statement,
    [startServer().catch(... process.exit(1))], has run. *)
Inductive Process :=
| Listening (srv : Server)
| Exited (code : Z).

Definition main : Process :=
  match startServer ∅ with
  | Ok srv => Listening srv
  | Throw _ => Exited 1
  end.

(** A request reaching the process: only a listening server answers. *)
Definition respond (p : Process) (request : Request) : option Response :=
  match p with
  | Listening srv =>
      Some (fetch (served_assets srv) (served_index srv) request)
  | Exited _ => None
  end.

(** *** The algorithm as the specification words it

    The specification's three steps, taken literally: the asset map,
    else the requested file read from disk at request time, else the
    SPA shell. *)
Definition spec_fetch (assets : gmap string Asset) (indexHtml : string)
    (request : Request) : Response :=
  match serveAsset assets request (pathname request) with
  | Some staticResponse => staticResponse
  | None =>
      let requested := path_join rt CLIENT_DIR (pathname request) in
      if file_exists (Bun_file rt requested)
      then {| status := 200;
              headers := {[ "Content-Type" :=
                  str_or (Some (file_type (Bun_file rt requested))) OCTET_STREAM ]};
              body := FileBody requested |}
      else {| status := 200;
              headers := {[ "Content-Type" := "text/html" ]};
              body := TextBody indexHtml |}
  end.

End Server.
End AssetServer.

(** ** A reference model of [createHash("md5")] (RFC 1321)

    The server takes its digest from the runtime; this model of it
    instantiates the runtime in the examples. *)

Module MD5.
Local Open Scope N_scope.

Definition mask32 (x : N) : N := x mod 4294967296.

Definition not32 (x : N) : N := N.lxor x 4294967295.

Definition rotl (x c : N) : N :=
  mask32 (N.lor (N.shiftl x c) (N.shiftr x (32 - c))).

Definition S : list N :=
  [ 7; 12; 17; 22; 7; 12; 17; 22; 7; 12; 17; 22; 7; 12; 17; 22;
    5; 9; 14; 20; 5; 9; 14; 20; 5; 9; 14; 20; 5; 9; 14; 20;
    4; 11; 16; 23; 4; 11; 16; 23; 4; 11; 16; 23; 4; 11; 16; 23;
    6; 10; 15; 21; 6; 10; 15; 21; 6; 10; 15; 21; 6; 10; 15; 21 ].

Definition K : list N :=
  [ 3614090360; 3905402710; 606105819; 3250441966; 4118548399; 1200080426;
    2821735955; 4249261313; 1770035416; 2336552879; 4294925233; 2304563134;
    1804603682; 4254626195; 2792965006; 1236535329; 4129170786; 3225465664;
    643717713; 3921069994; 3593408605; 38016083; 3634488961; 3889429448;
    568446438; 3275163606; 4107603335; 1163531501; 2850285829; 4243563512;
    1735328473; 2368359562; 4294588738; 2272392833; 1839030562; 4259657740;
    2763975236; 1272893353; 4139469664; 3200236656; 681279174; 3936430074;
    3572445317; 76029189; 3654602809; 3873151461; 530742520; 3299628645;
    4096336452; 1126891415; 2878612391; 4237533241; 1700485571; 2399980690;
    4293915773; 2240044497; 1873313359; 4264355552; 2734768916; 1309151649;
    4149444226; 3174756917; 718787259; 3951481745 ].

Definition State : Type := N * N * N * N.

Definition round (M : list N) (st : State) (i : nat) : State :=
  let '(A, B, C, D) := st in
  let n := N.of_nat i in
  let '(F, g) :=
    if n <? 16 then (N.lor (N.land B C) (N.land (not32 B) D), n)
    else if n <? 32 then (N.lor (N.land D B) (N.land (not32 D) C), (5 * n + 1) mod 16)
    else if n <? 48 then (N.lxor (N.lxor B C) D, (3 * n + 5) mod 16)
    else (N.lxor C (N.lor B (not32 D)), (7 * n) mod 16) in
  let F := mask32 (F + A + nth i K 0 + nth (N.to_nat g) M 0) in
  (D, mask32 (B + rotl F (nth i S 0)), B, C).

(** Little-endian 32-bit words of a block. *)
Fixpoint words (count : nat) (block : list N) : list N :=
  match count with
  | O => []
  | Datatypes.S count' =>
      match block with
      | b0 :: b1 :: b2 :: b3 :: rest =>
          (b0 + 256 * b1 + 65536 * b2 + 16777216 * b3) :: words count' rest
      | _ => []
      end
  end.

Definition le_bytes (count : nat) (x : N) : list N :=
  map (fun i => (x / 256 ^ N.of_nat i) mod 256) (seq 0 count).

Definition pad (msg : list N) : list N :=
  let len := N.of_nat (length msg) in
  let zeros := N.to_nat ((119 - len mod 64) mod 64) in
  msg ++ [128] ++ repeat 0 zeros ++ le_bytes 8 ((8 * len) mod 2 ^ 64).

Definition block (st : State) (chunk : list N) : State :=
  let '(a0, b0, c0, d0) := st in
  let '(A, B, C, D) := fold_left (round (words 16 chunk)) (seq 0 64) st in
  (mask32 (a0 + A), mask32 (b0 + B), mask32 (c0 + C), mask32 (d0 + D)).

Fixpoint blocks (count : nat) (st : State) (data : list N) : State :=
  match count with
  | O => st
  | Datatypes.S count' => blocks count' (block st (firstn 64 data)) (skipn 64 data)
  end.

Definition digest (msg : list byte) : list byte :=
  let data := pad (map Byte.to_N msg) in
  let '(a, b, c, d) :=
    blocks (length data / 64)
           (1732584193, 4023233417, 2562383102, 271733878) data in
  map (fun n => default x00 (Byte.of_N n))
      (le_bytes 4 a ++ le_bytes 4 b ++ le_bytes 4 c ++ le_bytes 4 d).

End MD5.

(** ** The blog API client (getCookie.ts and api/blog.ts) *)

Module BlogApi.
Import JS.

(** What the browser and the build provide: the two environment
    settings with their defaults applied, [decodeURIComponent] (which
    throws on a malformed escape), [JSON.stringify] and [String]. *)
Record Browser := mkBrowser {
  PROJECT_NAME : string;
  API_BASE : string;
  decodeURIComponent : string -> option string;
  JSON_stringify : value -> string;
  String_of : value -> string
}.

Inductive URIError := MalformedURI.

(** A [FormData] entry value. *)
Inductive FormValue :=
| FormText (s : string)
| FormFile (v : value).

Inductive Body :=
| StringBody (s : string)
| FormBody (fd : list (string * FormValue)).

(** The arguments of one call of [fetch]; an option left out of the init
    object is [None] (the method then defaults to GET). *)
Record FetchCall := mkFetch {
  url : string;
  method : option string;
  headers : gmap string string;
  credentials : option string;
  body : option Body
}.

(** White space as [String.prototype.trim] sees it, among the code units
    below 256. *)
Definition is_space (c : ascii) : bool :=
  let n := nat_of_ascii c in
  (Nat.leb 9 n && Nat.leb n 13) || Nat.eqb n 32 || Nat.eqb n 160.

Fixpoint trim_start (s : string) : string :=
  match s with
  | EmptyString => EmptyString
  | String c rest => if is_space c then trim_start rest else s
  end.

Fixpoint trim_end (s : string) : string :=
  match s with
  | EmptyString => EmptyString
  | String c rest =>
      match trim_end rest with
      | EmptyString => if is_space c then EmptyString else String c EmptyString
      | rest' => String c rest'
      end
  end.

Definition trim (s : string) : string := trim_end (trim_start s).

(** [s.substring(n)] *)
Definition substring_from (n : nat) (s : string) : string :=
  String.substring n (String.length s - n) s.

Section Client.
Variable env : Browser.

Definition getCookieName (baseName : string) : string :=
  PROJECT_NAME env +:+ "_" +:+ baseName.

(** The loop of [getCookie] over the split cookie string. *)
Fixpoint findCookie (name : string) (cookies : list string)
  : result URIError (option string) :=
  match cookies with
  | [] => Ok None
  | c :: rest =>
      let cookie := trim c in
      if String.eqb (String.substring 0 (String.length name + 1) cookie)
                    (name +:+ "=")
      then match decodeURIComponent env
                   (substring_from (String.length name + 1) cookie) with
           | Some v => Ok (Some v)
           | None => Throw MalformedURI
           end
      else findCookie name rest
  end.

Definition getCookie (document_cookie name : string)
  : result URIError (option string) :=
  if truthy_string document_cookie
     && negb (String.eqb document_cookie EmptyString)
  then findCookie name (split ";"%char document_cookie)
  else Ok None.

Definition getCSRFToken (document_cookie : string)
  : result URIError (option string) :=
  getCookie document_cookie (getCookieName "csrftoken").

Definition getAuthHeaders (document_cookie : string)
  : result URIError (gmap string string) :=
  await csrfToken <- getCSRFToken document_cookie in
  Ok {[ "X-CSRFToken" := str_or csrfToken EmptyString ]}.

Definition incrementViewCount (slug : string) : FetchCall :=
  {| url := API_BASE env +:+ "/blog/posts/" +:+ slug +:+ "/view/";
     method := Some "POST"; headers := ∅;
     credentials := None; body := None |}.

Definition instanceof_File (v : value) : bool :=
  match v with File _ => true | _ => false end.

Definition Array_isArray (v : value) : bool :=
  match v with Arr _ => true | _ => false end.

(** The [Object.keys(data).forEach] loop filling the form. *)
Fixpoint appendFields (data keys : list (string * value))
  : list (string * FormValue) :=
  match keys with
  | [] => []
  | (key, _) :: rest =>
      let value := lookup_prop key data in
      let entry :=
        if negb (String.eqb key "featured_image")
           && negb (String.eqb key "og_image")
           && negb (match value with Undefined => true | _ => false end)
        then if Array_isArray value
             then [(key, FormText (JSON_stringify env value))]
             else [(key, FormText (String_of env value))]
        else [] in
      entry ++ appendFields data rest
  end.

(** The body and headers [createPost] and [updatePost] build. *)
Definition postPayload (document_cookie : string)
    (data : list (string * value))
  : result URIError (Body * gmap string string) :=
  let hasFeaturedImage := instanceof_File (lookup_prop "featured_image" data) in
  let hasOgImage := instanceof_File (lookup_prop "og_image" data) in
  if hasFeaturedImage || hasOgImage then
    let formData := appendFields data data in
    let formData :=
      if hasFeaturedImage
      then formData ++ [("featured_image_upload",
                         FormFile (lookup_prop "featured_image" data))]
      else formData in
    let formData :=
      if hasOgImage
      then formData ++ [("og_image_upload",
                         FormFile (lookup_prop "og_image" data))]
      else formData in
    await headers <- getAuthHeaders document_cookie in
    Ok (FormBody formData, headers)
  else
    let body := StringBody (JSON_stringify env (Obj data)) in
    await auth <- getAuthHeaders document_cookie in
    Ok (body, auth ∪ {[ "Content-Type" := "application/json" ]}).

Definition createPost (document_cookie : string)
    (data : list (string * value)) : result URIError FetchCall :=
  await payload <- postPayload document_cookie data in
  Ok {| url := API_BASE env +:+ "/blog/posts/";
        method := Some "POST"; headers := payload.2;
        credentials := Some "include"; body := Some payload.1 |}.

Definition updatePost (document_cookie slug : string)
    (data : list (string * value)) : result URIError FetchCall :=
  await payload <- postPayload document_cookie data in
  Ok {| url := API_BASE env +:+ "/blog/posts/" +:+ slug +:+ "/";
        method := Some "PATCH"; headers := payload.2;
        credentials := Some "include"; body := Some payload.1 |}.

Definition deletePost (document_cookie slug : string)
  : result URIError FetchCall :=
  await headers <- getAuthHeaders document_cookie in
  Ok {| url := API_BASE env +:+ "/blog/posts/" +:+ slug +:+ "/";
        method := Some "DELETE"; headers := headers;
        credentials := Some "include"; body := None |}.

Definition uploadBlogImage (document_cookie : string) (file altText : value)
  : result URIError FetchCall :=
  let formData := [("image", FormFile file)] in
  let formData :=
    if truthy altText
    then formData ++ [("alt_text", FormText (String_of env altText))]
    else formData in
  await headers <- getAuthHeaders document_cookie in
  Ok {| url := API_BASE env +:+ "/blog/upload-image/";
        method := Some "POST"; headers := headers;
        credentials := Some "include"; body := Some (FormBody formData) |}.

(** The JSON writes of the category and tag functions share one shape. *)
Definition jsonWrite (document_cookie url method : string) (data : value)
  : result URIError FetchCall :=
  await auth <- getAuthHeaders document_cookie in
  Ok {| url := url; method := Some method;
        headers := auth ∪ {[ "Content-Type" := "application/json" ]};
        credentials := Some "include";
        body := Some (StringBody (JSON_stringify env data)) |}.

Definition jsonDelete (document_cookie url : string)
  : result URIError FetchCall :=
  await headers <- getAuthHeaders document_cookie in
  Ok {| url := url; method := Some "DELETE"; headers := headers;
        credentials := Some "include"; body := None |}.

Definition createCategory (document_cookie : string) (data : value) :=
  jsonWrite document_cookie (API_BASE env +:+ "/blog/categories/") "POST" data.

Definition updateCategory (document_cookie : string) (id data : value) :=
  jsonWrite document_cookie
    (API_BASE env +:+ "/blog/categories/" +:+ String_of env id +:+ "/")
    "PATCH" data.

Definition deleteCategory (document_cookie : string) (id : value) :=
  jsonDelete document_cookie
    (API_BASE env +:+ "/blog/categories/" +:+ String_of env id +:+ "/").

Definition createTag (document_cookie : string) (data : value) :=
  jsonWrite document_cookie (API_BASE env +:+ "/blog/tags/") "POST" data.

Definition updateTag (document_cookie : string) (id data : value) :=
  jsonWrite document_cookie
    (API_BASE env +:+ "/blog/tags/" +:+ String_of env id +:+ "/")
    "PATCH" data.

Definition deleteTag (document_cookie : string) (id : value) :=
  jsonDelete document_cookie
    (API_BASE env +:+ "/blog/tags/" +:+ String_of env id +:+ "/").

(** The state-changing calls of the client, and the request each one
    issues. *)
Inductive ApiCall :=
| IncrementViewCount (slug : string)
| CreatePost (data : list (string * value))
| UpdatePost (slug : string) (data : list (string * value))
| DeletePost (slug : string)
| UploadBlogImage (file altText : value)
| CreateCategory (data : value)
| UpdateCategory (id data : value)
| DeleteCategory (id : value)
| CreateTag (data : value)
| UpdateTag (id data : value)
| DeleteTag (id : value).

Definition issue (document_cookie : string) (c : ApiCall)
  : result URIError FetchCall :=
  match c with
  | IncrementViewCount slug => Ok (incrementViewCount slug)
  | CreatePost data => createPost document_cookie data
  | UpdatePost slug data => updatePost document_cookie slug data
  | DeletePost slug => deletePost document_cookie slug
  | UploadBlogImage file altText => uploadBlogImage document_cookie file altText
  | CreateCategory data => createCategory document_cookie data
  | UpdateCategory id data => updateCategory document_cookie id data
  | DeleteCategory id => deleteCategory document_cookie id
  | CreateTag data => createTag document_cookie data
  | UpdateTag id data => updateTag document_cookie id data
  | DeleteTag id => deleteTag document_cookie id
  end.

Definition is_state_changing (r : FetchCall) : bool :=
  match method r with
  | Some m => String.eqb m "POST" || String.eqb m "PATCH" || String.eqb m "DELETE"
  | None => false
  end.

End Client.
End BlogApi.

(** ** The theme loader (themes/themeLoader.ts) *)

Module ThemeLoader.
Import JS.

Inductive TypeError := PropertyOfNullish.

(** [v.k]: reading a property of [null] or [undefined] throws; an object
    literal answers from its own properties, a [File] has its [name], and
    no other value of the model has one of the property names the loader
    reads. *)
Definition get (v : value) (k : string) : result TypeError value :=
  match v with
  | Undefined | Null => Throw PropertyOfNullish
  | Obj props => Ok (lookup_prop k props)
  | File name => Ok (if String.eqb k "name" then Str name else Undefined)
  | Bool _ | Num _ | Str _ | Arr _ => Ok Undefined
  end.

(** [v.k = x] in a module (strict mode).  Extra properties of arrays and
    of [File] objects are outside the model: the loader assigns only to
    data that passed validation, which is an object literal. *)
Definition set (v : value) (k : string) (x : value) : result TypeError value :=
  match v with
  | Obj props => Ok (Obj (assign_prop k x props))
  | Arr _ | File _ => Ok v
  | Undefined | Null | Bool _ | Num _ | Str _ => Throw PropertyOfNullish
  end.

(** [a && b], with [b] evaluated only when [a] is truthy. *)
Definition and_then (a : result TypeError value)
    (b : unit -> result TypeError value) : result TypeError value :=
  await x <- a in if truthy x then b tt else Ok x.

(** [a || b] *)
Definition or_else (a : result TypeError value)
    (b : unit -> result TypeError value) : result TypeError value :=
  await x <- a in if truthy x then Ok x else b tt.

Definition validateThemeData (themeData : value) : result TypeError value :=
  and_then (Ok themeData) (fun _ =>
  and_then (Ok (Bool (typeof_object themeData))) (fun _ =>
  and_then (or_else (get themeData "theme_name")
                    (fun _ => get themeData "name")) (fun _ =>
  and_then (get themeData "display_name") (fun _ =>
  and_then (get themeData "cssVars") (fun _ =>
  and_then (await cssVars <- get themeData "cssVars" in get cssVars "theme") (fun _ =>
  and_then (await cssVars <- get themeData "cssVars" in get cssVars "light") (fun _ =>
           (await cssVars <- get themeData "cssVars" in get cssVars "dark")))))))).

Definition normalizeThemeData (themeData : value) : result TypeError value :=
  await theme_name <- get themeData "theme_name" in
  await name <- get themeData "name" in
  await themeData1 <-
    (if negb (truthy theme_name) && truthy name
     then set themeData "theme_name" name
     else Ok themeData) in
  await success <- get themeData1 "success" in
  match success with
  | Undefined => set themeData1 "success" (Bool true)
  | _ => Ok themeData1
  end.

(** The keys of [themeImports], in the order of the object literal. *)
Definition themeNames : list string :=
  [ "modern-minimal"; "t3-chat"; "twitter"; "mono"; "mocha-mousse";
    "bubblegum"; "amethyst-haze"; "notebook"; "doom-64"; "catppuccin";
    "graphite"; "perpetuity"; "kodama-grove"; "cosmic-night"; "tangerine";
    "quantum-rose"; "nature"; "bold-tech"; "elegant-luxury"; "amber-minimal";
    "supabase"; "neo-brutalism"; "solar-dusk"; "claymorphism"; "cyberpunk";
    "pastel-dreams"; "clean-slate"; "caffeine"; "ocean-breeze"; "retro-arcade";
    "midnight-bloom"; "candyland"; "northern-lights"; "vintage-paper";
    "sunset-horizon"; "starry-night"; "claude"; "vercel"; "popstar";
    "ghibli-studio" ].

(** [themeImports], given what each imported JSON file holds. *)
Definition themeImports (json : string -> value) : list (string * value) :=
  map (fun themeName => (themeName, json themeName)) themeNames.

(** The state [loadThemes] works on: the registry and its counter. *)
Record LoaderState := mkLoader {
  THEME_REGISTRY : gmap string value;
  loadedCount : nat
}.

(** The body of the [forEach] callback, with its [try]/[catch]. *)
Definition loadTheme (st : LoaderState) (entry : string * value) : LoaderState :=
  let '(themeName, themeData) := entry in
  let attempt :=
    await ok <- validateThemeData themeData in
    if truthy ok then
      await theme <- normalizeThemeData themeData in
      Ok {| THEME_REGISTRY := <[themeName := theme]> (THEME_REGISTRY st);
            loadedCount := S (loadedCount st) |}
    else Ok st in
  match attempt with
  | Ok st' => st'
  | Throw _ => st
  end.

Definition loadThemes (imports : list (string * value))
    (registry : gmap string value) : LoaderState :=
  fold_left loadTheme imports {| THEME_REGISTRY := registry; loadedCount := 0 |}.

End ThemeLoader.

(** ** The editor's slug (blog editor page, [generateSlug]) *)

Module Editor.

(** Strings are sequences of code units below 256; [toLowerCase] maps the
    upper-case letters of that range (A-Z, and U+00C0-U+00DE except the
    multiplication sign) to their lower-case letters. *)
Definition lower_char (c : ascii) : ascii :=
  let n := nat_of_ascii c in
  if (Nat.leb 65 n && Nat.leb n 90)
     || (Nat.leb 192 n && Nat.leb n 222 && negb (Nat.eqb n 215))
  then ascii_of_nat (n + 32) else c.

Fixpoint toLowerCase (s : string) : string :=
  match s with
  | EmptyString => EmptyString
  | String c rest => String (lower_char c) (toLowerCase rest)
  end.

(** The character class [[a-z0-9]]. *)
Definition is_az09 (c : ascii) : bool :=
  let n := nat_of_ascii c in
  (Nat.leb 97 n && Nat.leb n 122) || (Nat.leb 48 n && Nat.leb n 57).

Definition hyphen : ascii := "-"%char.

(** [s.replace(/[^a-z0-9]+/g, '-')]: each maximal run of characters
    outside the class becomes one hyphen.  [in_run] tells that the
    previous character already belonged to the current run. *)
Fixpoint replace_runs (in_run : bool) (s : string) : string :=
  match s with
  | EmptyString => EmptyString
  | String c rest =>
      if is_az09 c then String c (replace_runs false rest)
      else if in_run then replace_runs true rest
      else String hyphen (replace_runs true rest)
  end.

(** The [-$] alternative: a hyphen that is the last character. *)
Fixpoint drop_final_hyphen (s : string) : string :=
  match s with
  | EmptyString => EmptyString
  | String c EmptyString =>
      if Ascii.eqb c hyphen then EmptyString else s
  | String c rest => String c (drop_final_hyphen rest)
  end.

(** [s.replace(/^-|-$/g, '')]: a hyphen at index 0 is removed, and so
    is a hyphen that ends the string and was not already removed. *)
Definition strip_edges (s : string) : string :=
  match s with
  | String c rest =>
      if Ascii.eqb c hyphen then drop_final_hyphen rest
      else drop_final_hyphen s
  | EmptyString => EmptyString
  end.

Definition generateSlug (title : string) : string :=
  strip_edges (replace_runs false (toLowerCase title)).

End Editor.

(** ** The theme API client (api/themes.ts) *)

Module ThemeApi.
Import JS BlogApi.

Definition baseUrl : string := "/api/v1".

(** A [RequestInit] object; a property the caller left out is [None]. *)
Record RequestInit := mkInit {
  init_method : option string;
  init_headers : option (gmap string string);
  init_credentials : option string;
  init_body : option Body
}.

Definition no_options : RequestInit :=
  {| init_method := None; init_headers := None;
     init_credentials := None; init_body := None |}.

(** The call of [fetch] in [makeRequest], with
    [{ credentials: 'include', ...options }]. *)
Definition makeRequest (url : string) (options : RequestInit) : FetchCall :=
  {| url := baseUrl +:+ url;
     method := init_method options;
     headers := default ∅ (init_headers options);
     credentials := Some (default "include" (init_credentials options));
     body := init_body options |}.

Section Service.
Variable env : Browser.

(** [makeAuthenticatedRequest]: the object literal first sets [headers]
    to the merged headers and then spreads [options] over it, so a
    [headers] property of [options] replaces the merged ones. *)
Definition makeAuthenticatedRequest (document_cookie url : string)
    (options : RequestInit) : result URIError FetchCall :=
  await csrfToken <- getCSRFToken env document_cookie in
  let merged : gmap string string :=
    default ∅ (init_headers options)
    ∪ {[ "X-CSRFToken" := str_or csrfToken EmptyString ]}
    ∪ {[ "Content-Type" := "application/json" ]} in
  Ok (makeRequest url
        {| init_method := init_method options;
           init_headers := Some (default merged (init_headers options));
           init_credentials := init_credentials options;
           init_body := init_body options |}).

Definition getThemes : FetchCall := makeRequest "/themes/" no_options.

Definition areThemesAvailable : FetchCall :=
  makeRequest "/themes/available/" no_options.

Definition getCurrentTheme : FetchCall :=
  makeRequest "/themes/current/" no_options.

Definition getTheme (name : string) : FetchCall :=
  makeRequest ("/themes/" +:+ name +:+ "/") no_options.

Definition getCurrentThemeSetting : FetchCall :=
  makeRequest "/themes/current-setting/" no_options.

Definition post_json (data : value) : RequestInit :=
  {| init_method := Some "POST"; init_headers := None;
     init_credentials := None;
     init_body := Some (StringBody (JSON_stringify env data)) |}.

Definition setCurrentTheme (document_cookie themeName : string) :=
  makeAuthenticatedRequest document_cookie "/themes/set-current/"
    (post_json (Obj [ ("theme_name", Str themeName) ])).

Definition createTheme (document_cookie : string) (themeData : value) :=
  makeAuthenticatedRequest document_cookie "/themes/" (post_json themeData).

Definition generateTheme (document_cookie prompt : string) (themeMentions : value) :=
  makeAuthenticatedRequest document_cookie "/themes/generate/"
    (post_json (Obj [ ("prompt", Str prompt);
                      ("theme_mentions",
                       if truthy themeMentions then themeMentions else Arr []) ])).

Definition duplicateTheme (document_cookie themeName newName : string)
    (newDisplayName : value) :=
  makeAuthenticatedRequest document_cookie
    ("/themes/" +:+ themeName +:+ "/duplicate/")
    (post_json (Obj [ ("new_name", Str newName);
                      ("new_display_name", newDisplayName) ])).

Definition updateTheme (document_cookie themeName : string) (themeData : value) :=
  makeAuthenticatedRequest document_cookie ("/themes/" +:+ themeName +:+ "/")
    {| init_method := Some "PUT"; init_headers := None;
       init_credentials := None;
       init_body := Some (StringBody (JSON_stringify env themeData)) |}.

Definition deleteTheme (document_cookie themeName : string)
  : result URIError FetchCall :=
  await csrfToken <- getCSRFToken env document_cookie in
  Ok {| url := baseUrl +:+ "/themes/" +:+ themeName +:+ "/";
        method := Some "DELETE";
        headers := {[ "X-CSRFToken" := str_or csrfToken EmptyString ]};
        credentials := Some "include"; body := None |}.

(** The writes of the service. *)
Inductive ThemeWrite :=
| SetCurrentTheme (themeName : string)
| CreateTheme (themeData : value)
| GenerateTheme (prompt : string) (themeMentions : value)
| DuplicateTheme (themeName newName : string) (newDisplayName : value)
| UpdateTheme (themeName : string) (themeData : value)
| DeleteTheme (themeName : string).

Definition write_request (document_cookie : string) (w : ThemeWrite)
  : result URIError FetchCall :=
  match w with
  | SetCurrentTheme n => setCurrentTheme document_cookie n
  | CreateTheme d => createTheme document_cookie d
  | GenerateTheme p m => generateTheme document_cookie p m
  | DuplicateTheme n n' d => duplicateTheme document_cookie n n' d
  | UpdateTheme n d => updateTheme document_cookie n d
  | DeleteTheme n => deleteTheme document_cookie n
  end.

End Service.
End ThemeApi.

(** ** What the blog API functions make of a response (api/blog.ts) *)

Module BlogApiResponses.
Import JS BlogApi.

(** A response as the client reads it; [json] is [None] when parsing the
    body throws. *)
Record HttpResponse := mkHttp {
  ok : bool;
  http_status : Z;
  json : option value
}.

Inductive Exn :=
| Error (message : string)
| SyntaxError
| TypeError.

Section Results.
Variable env : Browser.

(** [String(v)] as [new Error(v)] applies it to its message. *)
Definition message_of (v : value) : string :=
  match v with
  | Str s => s
  | _ => String_of env v
  end.

(** [await response.json()] *)
Definition read_json (response : HttpResponse) : result Exn value :=
  match json response with
  | Some v => Ok v
  | None => Throw SyntaxError
  end.

(** [throw new Error(error[key] || fallback)] *)
Definition throw_detail {A : Type} (error : value) (key fallback : string)
  : result Exn A :=
  match ThemeLoader.get error key with
  | Throw _ => Throw TypeError
  | Ok detail =>
      Throw (Error (if truthy detail then message_of detail else fallback))
  end.

(** The tail of createPost, updatePost, uploadBlogImage and the category
    and tag writes. *)
Definition write_result (key fallback : string) (response : HttpResponse)
  : result Exn value :=
  if negb (ok response) then
    await error <- read_json response in
    throw_detail error key fallback
  else read_json response.

(** The tail of deletePost, deleteCategory and deleteTag, whose
    [response.json()] carries a [catch]. *)
Definition delete_result (fallback : string) (response : HttpResponse)
  : result Exn unit :=
  if negb (ok response) then
    let error :=
      match json response with
      | Some e => e
      | None => Obj [ ("detail", Str fallback) ]
      end in
    throw_detail error "detail" fallback
  else Ok tt.

(** The tail of the read functions. *)
Definition read_result (failure : string) (response : HttpResponse)
  : result Exn value :=
  if negb (ok response) then Throw (Error failure) else read_json response.

Definition createPost_result := write_result "detail" "Failed to create post".
Definition updatePost_result := write_result "detail" "Failed to update post".
Definition uploadBlogImage_result := write_result "error" "Failed to upload image".
Definition createCategory_result := write_result "detail" "Failed to create category".
Definition updateCategory_result := write_result "detail" "Failed to update category".
Definition createTag_result := write_result "detail" "Failed to create tag".
Definition updateTag_result := write_result "detail" "Failed to update tag".
Definition deletePost_result := delete_result "Failed to delete post".
Definition deleteCategory_result := delete_result "Failed to delete category".
Definition deleteTag_result := delete_result "Failed to delete tag".
Definition fetchPosts_result := read_result "Failed to fetch posts".
Definition fetchPostForEdit_result := read_result "Failed to fetch post for editing".
Definition fetchRelatedPosts_result := read_result "Failed to fetch related posts".
Definition fetchCategories_result := read_result "Failed to fetch categories".
Definition fetchTags_result := read_result "Failed to fetch tags".
Definition fetchMyDrafts_result := read_result "Failed to fetch drafts".
Definition fetchAllPosts_result := read_result "Failed to fetch all posts".
Definition fetchUploadedImages_result := read_result "Failed to fetch uploaded images".

(** fetchPost names the status in its message. *)
Definition fetchPost_result (response : HttpResponse) : result Exn value :=
  if negb (ok response)
  then Throw (Error ("Failed to fetch post: " +:+ String_of env (Num (inject_Z (http_status response)))))
  else read_json response.

End Results.
End BlogApiResponses.

(** ** The theme registry (themes/themeConfig.ts), its status
    ([getThemeRegistryStatus] of themeLoader.ts) and lib/themeTypes.ts *)

Module ThemeConfig.
Import JS ThemeLoader.

(** The registry is a plain object, so a read also finds what
    [Object.prototype] provides. *)
Definition Object_prototype_keys : list string :=
  [ "constructor"; "__defineGetter__"; "__defineSetter__"; "hasOwnProperty";
    "__lookupGetter__"; "__lookupSetter__"; "isPrototypeOf";
    "propertyIsEnumerable"; "toString"; "valueOf"; "__proto__";
    "toLocaleString" ].

(** What [THEME_REGISTRY[k]] evaluates to, when it is not [undefined]:
    a registered theme, or a built-in inherited from the prototype. *)
Inductive Property :=
| Own (theme : value)
| Inherited (key : string).

Definition read (registry : gmap string value) (k : string) : option Property :=
  match registry !! k with
  | Some theme => Some (Own theme)
  | None =>
      if bool_decide (k ∈ Object_prototype_keys) then Some (Inherited k)
      else None
  end.

Definition truthy_property (p : option Property) : bool :=
  match p with
  | Some (Own theme) => truthy theme
  | Some (Inherited _) => true
  | None => false
  end.

(** [THEME_REGISTRY[themeName] || null]; [None] is [null]. *)
Definition getLocalTheme (registry : gmap string value) (themeName : string)
  : option Property :=
  if truthy_property (read registry themeName) then read registry themeName
  else None.

(** [LOCAL_THEME_CONFIG.defaultTheme] is the state the two functions
    below share. *)
Definition getDefaultTheme (registry : gmap string value) (defaultTheme : string)
  : option Property :=
  getLocalTheme registry defaultTheme.

Definition setDefaultTheme (registry : gmap string value)
    (defaultTheme themeName : string) : string :=
  if truthy_property (read registry themeName) then themeName else defaultTheme.

(** [getThemeRegistryStatus]; the array of names is kept as the set of
    keys, since the map does not keep their insertion order. *)
Record RegistryStatus := mkStatus {
  totalThemes : nat;
  themes : gset string;
  isEmpty : bool
}.

Definition getThemeRegistryStatus (registry : gmap string value) : RegistryStatus :=
  {| totalThemes := size (dom registry);
     themes := dom registry;
     isEmpty := Nat.eqb (size (dom registry)) 0 |}.

(** [legacyThemeToThemeData] *)
Definition legacyThemeToThemeData (legacyTheme : value) : result TypeError value :=
  await name <- get legacyTheme "theme_name" in
  await display_name <- get legacyTheme "display_name" in
  await css_vars <- get legacyTheme "cssVars" in
  Ok (Obj [ ("name", name); ("display_name", display_name);
            ("css_vars", css_vars); ("is_system_theme", Bool true);
            ("version", Str "1.0.0") ]).

(** [apiThemeToThemeData] *)
Definition apiThemeToThemeData (apiTheme : value) : result TypeError value :=
  await name <- get apiTheme "name" in
  await display_name <- get apiTheme "display_name" in
  await description <- get apiTheme "description" in
  await css_vars <- get apiTheme "css_vars" in
  await is_system_theme <- get apiTheme "is_system_theme" in
  await version <- get apiTheme "version" in
  Ok (Obj [ ("name", name); ("display_name", display_name);
            ("description", description); ("css_vars", css_vars);
            ("is_system_theme", is_system_theme); ("version", version) ]).

End ThemeConfig.

(** ** The authentication hook (hooks/useAuth.ts) *)

Module AuthHook.
Import JS.

(** [JSON.parse] (which throws on malformed text) and [JSON.stringify]. *)
Record Json := mkJson {
  JSON_parse : string -> option value;
  JSON_stringify : value -> string
}.

(** The three pieces of React state of one mounted hook. *)
Record AuthState := mkAuth {
  user : value;               (* [Null] when nobody is signed in *)
  isAuthenticated : bool;
  isLoading : bool
}.

(** The browser's [localStorage] and the hook's state. *)
Record World := mkWorld {
  localStorage : gmap string string;
  auth : AuthState
}.

Definition initial (storage : gmap string string) : World :=
  {| localStorage := storage;
     auth := {| user := Null; isAuthenticated := false; isLoading := true |} |}.

Section Hook.
Variable js : Json.

Definition updateAuthState (w : World) : World :=
  let signed_out (storage : gmap string string) :=
    {| localStorage := storage;
       auth := {| user := Null; isAuthenticated := false; isLoading := false |} |} in
  match localStorage w !! "user" with
  | Some storedUser =>
      if truthy_string storedUser then
        match JSON_parse js storedUser with
        | Some userData =>
            {| localStorage := localStorage w;
               auth := {| user := userData; isAuthenticated := true;
                          isLoading := false |} |}
        | None => signed_out (delete "user" (localStorage w))
        end
      else signed_out (localStorage w)
  | None => signed_out (localStorage w)
  end.





End Hook.
End AuthHook.

(** ** Font names of a theme (hooks/useDynamicFonts.ts) *)

Module Fonts.
Import JS.

(** [s.replace(/\s+/g, '-')]: each maximal run of white space becomes
    one hyphen. *)
Fixpoint replace_spaces (in_run : bool) (s : string) : string :=
  match s with
  | EmptyString => EmptyString
  | String c rest =>
      if BlogApi.is_space c then
        if in_run then replace_spaces true rest
        else String "-" (replace_spaces true rest)
      else String c (replace_spaces false rest)
  end.

(** [s.replace(re, '')] for a one-character class: the characters that
    satisfy [drop] are removed. *)
Fixpoint remove_chars (drop : ascii -> bool) (s : string) : string :=
  match s with
  | EmptyString => EmptyString
  | String c rest =>
      if drop c then remove_chars drop rest
      else String c (remove_chars drop rest)
  end.

(** The class [[^a-z0-9-]]. *)
Definition not_name_char (c : ascii) : bool :=
  negb (Editor.is_az09 c || Ascii.eqb c "-").

Definition normalizeFontName (fontName : string) : string :=
  remove_chars not_name_char (replace_spaces false (Editor.toLowerCase fontName)).

Definition systemFonts : list string :=
  [ "serif"; "sans-serif"; "monospace"; "cursive"; "fantasy";
    "system-ui"; "-apple-system"; "blinkmacsystemfont";
    "arial"; "helvetica"; "times"; "courier"; "verdana";
    "ui-sans-serif"; "ui-monospace"; "ui-serif";
    "georgia"; "times new roman"; "cambria";
    "arial"; "calibri"; "segoe ui"; "tahoma";
    "courier new"; "consolas"; "monaco" ].

Definition isWebFont (fontName : string) : bool :=
  let normalizedFont := BlogApi.trim (Editor.toLowerCase fontName) in
  negb (existsb (fun sysFont =>
                   String.eqb normalizedFont sysFont
                   || includes normalizedFont sysFont)
                systemFonts).

(** The class of the two quote characters, single and double. *)
Definition is_quote (c : ascii) : bool :=
  Ascii.eqb c "'" || Ascii.eqb c dquote.

(** [set.add(x)] on a set kept in insertion order. *)
Definition set_add (x : string) (set : list string) : list string :=
  if bool_decide (x ∈ set) then set else set ++ [x].

(** [value.split(',')[0]] *)
Definition first_part (s : string) : string :=
  match split "," s with
  | w :: _ => w
  | [] => EmptyString
  end.

(** The callback of the [forEach] in [getThemeFonts]. *)
Definition addThemeFont (themeFonts : list string) (entry : string * value)
  : list string :=
  let '(key, value) := entry in
  match value with
  | Str text =>
      if String.prefix "font-" key then
        let fontFamily := remove_chars is_quote (BlogApi.trim (first_part text)) in
        if truthy_string fontFamily then
          if isWebFont fontFamily then set_add fontFamily themeFonts
          else themeFonts
        else themeFonts
      else themeFonts
  | _ => themeFonts
  end.

Definition getThemeFonts (fontVariables : list (string * value)) : list string :=
  fold_left addThemeFont fontVariables [].

End Fonts.

(** ** Colour values of a theme ([processColorValue] of hooks/useTheme.ts) *)

Module ThemeCss.
Import JS.

(** The longest prefix without a closing parenthesis, and what follows. *)
Fixpoint span_open (s : string) : string * string :=
  match s with
  | EmptyString => (EmptyString, EmptyString)
  | String c rest =>
      if Ascii.eqb c ")" then (EmptyString, s)
      else let '(inner, tail) := span_open rest in (String c inner, tail)
  end.

(** A match of [/oklch\(([^)]+)\)/] that starts at the head of [s]: its
    group. *)
Definition match_here (s : string) : option string :=
  if String.prefix "oklch(" s then
    let '(inner, tail) := span_open (BlogApi.substring_from 6 s) in
    match inner, tail with
    | String _ _, String _ _ => Some inner
    | _, _ => None
    end
  else None.

(** The leftmost match, as [String.prototype.match] finds it. *)
Fixpoint oklch_match (s : string) : option string :=
  match match_here s with
  | Some inner => Some inner
  | None =>
      match s with
      | EmptyString => None
      | String _ rest => oklch_match rest
      end
  end.

Definition processColorValue (value : string) : string :=
  match oklch_match value with
  | Some inner => inner
  | None => value
  end.

End ThemeCss.

(** ** Pagination of the blog list (pages/blog/BlogList.tsx)

    Page numbers and counts are natural numbers; the first page is 1. *)

Module Pagination.

Definition POSTS_PER_PAGE : nat := 9.

(** [Math.ceil(length / POSTS_PER_PAGE)] *)
Definition totalPages (count : nat) : nat :=
  (count + (POSTS_PER_PAGE - 1)) / POSTS_PER_PAGE.

(** [posts.slice(startIndex, endIndex)] for a page number from 1. *)
Definition currentPosts {A : Type} (posts : list A) (currentPage : nat) : list A :=
  let startIndex := (currentPage - 1) * POSTS_PER_PAGE in
  firstn POSTS_PER_PAGE (skipn startIndex posts).

Inductive PageItem :=
| Page (n : nat)
| Ellipsis.

(** The pages [lo], [lo + 1], ..., [hi] of the [for] loop. *)
Definition page_range (lo hi : nat) : list PageItem :=
  map Page (seq lo (S hi - lo)).

Definition getPageNumbers (totalPages currentPage : nat) : list PageItem :=
  let showEllipsis := Nat.ltb 7 totalPages in
  if negb showEllipsis then map Page (seq 1 totalPages)
  else
    [Page 1]
    ++ (if Nat.ltb 3 currentPage then [Ellipsis] else [])
    ++ page_range (Nat.max 2 (currentPage - 1))
                  (Nat.min (totalPages - 1) (currentPage + 1))
    ++ (if Nat.ltb currentPage (totalPages - 2) then [Ellipsis] else [])
    ++ (if Nat.ltb 1 totalPages then [Page totalPages] else []).

End Pagination.

(** * Properties *)

(** ** Strings *)

Module JSFacts.
Import JS.

Lemma prefix_app (p s : string) :
  String.prefix p s = true <-> exists post, s = p +:+ post.
Proof.
  revert s. induction p as [|c p IH]; intros s; simpl.
  - split; [intros _; exists s; reflexivity | destruct s; reflexivity].
  - destruct s as [|d s]; simpl.
    + split; [discriminate | intros [post H]; discriminate].
    + destruct (ascii_dec c d) as [->|Hne].
      * rewrite IH. split; intros [post H]; exists post; [by rewrite H | by inversion H].
      * split; [discriminate | intros [post H]; inversion H; congruence].
Qed.

(** [includes] decides the substring relation. *)
Lemma includes_spec (hay needle : string) :
  includes hay needle = true <->
  exists pre post, hay = pre +:+ needle +:+ post.
Proof.
  induction hay as [|c hay IH]; cbn [includes].
  - destruct (String.prefix needle EmptyString) eqn:Hp.
    + apply prefix_app in Hp as [post Hp]. split; [intros _|done].
      exists EmptyString, post. exact Hp.
    + split; [discriminate|]. intros ([|d pre] & post & H); [|discriminate].
      simpl in H. assert (String.prefix needle EmptyString = true) as Hq
        by (apply prefix_app; eauto). congruence.
  - destruct (String.prefix needle (String c hay)) eqn:Hp.
    + apply prefix_app in Hp as [post Hp]. split; [intros _|done].
      exists EmptyString, post. exact Hp.
    + rewrite IH. split.
      * intros (pre & post & ->). exists (String c pre), post. reflexivity.
      * intros ([|d pre] & post & H).
        -- simpl in H. assert (String.prefix needle (String c hay) = true) as Hq
             by (apply prefix_app; eauto). congruence.
        -- inversion H; subst. eauto.
Qed.

Lemma truthy_string_nonempty (s : string) :
  truthy_string s = true <-> s <> EmptyString.
Proof. destruct s; simpl; split; congruence. Qed.

Lemma str_or_default (o : option string) :
  str_or o EmptyString = default EmptyString o.
Proof. destruct o as [[|c s]|]; reflexivity. Qed.

Example includes_gzip : includes "br, gzip;q=0.8" "gzip" = true.
Proof. reflexivity. Qed.

Example includes_case_sensitive : includes "GZIP, deflate" "gzip" = false.
Proof. reflexivity. Qed.

Example split_backslash :
  join "/" (split "\"%char "assets\js\app.js") = "assets/js/app.js".
Proof. reflexivity. Qed.

End JSFacts.

(** ** The static-asset server *)

Module AssetServerFacts.
Import JS JSFacts AssetServer.

Definition is_lower_hex (c : ascii) : bool :=
  let n := nat_of_ascii c in
  (Nat.leb 48 n && Nat.leb n 57) || (Nat.leb 97 n && Nat.leb n 102).

Fixpoint string_forall (P : ascii -> bool) (s : string) : bool :=
  match s with
  | EmptyString => true
  | String c rest => P c && string_forall P rest
  end.

Lemma hex_digit_lower (n : N) : is_lower_hex (hex_digit n) = true.
Proof.
  unfold hex_digit. generalize (N.to_nat n) as k. intros k.
  do 16 (destruct k as [|k]; [reflexivity|]). reflexivity.
Qed.

Lemma hex_lower (bs : bytes) : string_forall is_lower_hex (hex bs) = true.
Proof.
  induction bs as [|b bs IH]; [reflexivity|].
  change (hex (b :: bs)) with
    (String (hex_digit (Byte.to_N b / 16))
       (String (hex_digit (Byte.to_N b mod 16)) (hex bs))).
  cbn [string_forall]. by rewrite !hex_digit_lower, IH.
Qed.

Lemma hex_length (bs : bytes) : String.length (hex bs) = 2 * length bs.
Proof.
  induction bs as [|b bs IH]; [reflexivity|].
  change (hex (b :: bs)) with
    (String (hex_digit (Byte.to_N b / 16))
       (String (hex_digit (Byte.to_N b mod 16)) (hex bs))).
  cbn [String.length length]. rewrite IH. lia.
Qed.

Example hex_example : hex [x00; x0f; xa5; xff] = "000fa5ff".
Proof. reflexivity. Qed.

Section Loading.
Variable rt : Runtime.

(** The names the loop body computes for a listed path. *)
Definition route_of (relativePath : string) : string :=
  "/" +:+ join "/" (split "\"%char relativePath).

Definition filepath_of (relativePath : string) : string :=
  path_join rt CLIENT_DIR relativePath.

Definition file_of (relativePath : string) : BunFile :=
  Bun_file rt (filepath_of relativePath).

Definition type_of (relativePath : string) : string :=
  str_or (Some (file_type (file_of relativePath))) OCTET_STREAM.

(** The two shapes of entry the loader registers. *)
Definition memory_entry (ty : string) (c : bytes) : Asset :=
  {| content := Some c; type := ty;
     etag := Some (generateETag rt c);
     gzipped := if (GZIP_THRESHOLD <? N.of_nat (length c))%N
                then Some (gzipSync rt c) else None;
     path := None |}.

Definition disk_entry (ty p : string) : Asset :=
  {| content := None; type := ty; etag := None; gzipped := None;
     path := Some p |}.

(** What one iteration registers for a listed path: nothing, an entry, or
    an exception. *)
Definition entry_of (relativePath : string) : result StartupError (option Asset) :=
  let file := file_of relativePath in
  if negb (file_exists file) || (file_size file =? 0)%N then Ok None
  else if (file_size file <=? MAX_ASSET_SIZE)%N then
    match arrayBuffer file with
    | None => Throw (ReadError (filepath_of relativePath))
    | Some c => Ok (Some (memory_entry (type_of relativePath) c))
    end
  else Ok (Some (disk_entry (type_of relativePath) (filepath_of relativePath))).

Lemma loadAsset_entry (relativePath : string) (assets : gmap string Asset) :
  loadAsset rt relativePath assets =
  match entry_of relativePath with
  | Ok None => Ok assets
  | Ok (Some a) => Ok (<[route_of relativePath := a]> assets)
  | Throw e => Throw e
  end.
Proof.
  unfold loadAsset, entry_of, file_of, filepath_of.
  destruct (negb _ || _); [reflexivity|].
  destruct (_ <=? _)%N; [|reflexivity].
  destruct (arrayBuffer _); reflexivity.
Qed.

(** Entries the loader can have registered for a listing. *)
Inductive loaded (files : list string) (route : string) : Asset -> Prop :=
| loaded_memory p c :
    p ∈ files -> route = route_of p ->
    file_exists (file_of p) = true ->
    (0 < file_size (file_of p) <= MAX_ASSET_SIZE)%N ->
    arrayBuffer (file_of p) = Some c ->
    loaded files route (memory_entry (type_of p) c)
| loaded_disk p :
    p ∈ files -> route = route_of p ->
    file_exists (file_of p) = true ->
    (MAX_ASSET_SIZE < file_size (file_of p))%N ->
    loaded files route (disk_entry (type_of p) (filepath_of p)).

Lemma entry_of_loaded (p : string) (a : Asset) (files : list string) :
  p ∈ files -> entry_of p = Ok (Some a) -> loaded files (route_of p) a.
Proof.
  intros Hin. unfold entry_of.
  destruct (file_exists (file_of p)) eqn:Hex; [|discriminate].
  destruct (file_size (file_of p) =? 0)%N eqn:Hz; [discriminate|].
  apply N.eqb_neq in Hz. cbn [negb orb].
  destruct (file_size (file_of p) <=? MAX_ASSET_SIZE)%N eqn:Hle.
  - apply N.leb_le in Hle.
    destruct (arrayBuffer (file_of p)) as [c|] eqn:Hrd; [|discriminate].
    intros [= <-]. eapply loaded_memory; eauto. lia.
  - apply N.leb_gt in Hle. intros [= <-]. eapply loaded_disk; eauto.
Qed.

Lemma loaded_mono (files files' : list string) (r : string) (a : Asset) :
  (forall p, p ∈ files -> p ∈ files') -> loaded files r a -> loaded files' r a.
Proof.
  intros Hsub [p c ? ? ? ? ?|p ? ? ? ?];
    [eapply loaded_memory | eapply loaded_disk]; eauto.
Qed.

Lemma loadAssets_loaded (files all : list string) (m m' : gmap string Asset) :
  (forall p, p ∈ files -> p ∈ all) ->
  map_Forall (loaded all) m ->
  loadAssets rt files m = Ok m' ->
  map_Forall (loaded all) m'.
Proof.
  revert m. induction files as [|p files IH]; intros m Hsub Hm; simpl.
  - by intros [= <-].
  - rewrite loadAsset_entry.
    destruct (entry_of p) as [[a|]|e] eqn:He; simpl; [| |discriminate].
    + apply IH; [intros q Hq; apply Hsub; by right|].
      apply map_Forall_insert_2; [|done].
      apply entry_of_loaded; [apply Hsub; by left|done].
    + apply IH; [intros q Hq; apply Hsub; by right|done].
Qed.

(** Every entry of the map a successful start-up leaves is one of the two
    shapes, for a listed path. *)
Lemma loadStaticAssets_loaded (assets : gmap string Asset) :
  loadStaticAssets rt ∅ = Ok assets ->
  exists files, readdir rt CLIENT_DIR = Some files /\
                map_Forall (loaded files) assets.
Proof.
  unfold loadStaticAssets. destruct (readdir rt CLIENT_DIR) as [files|]; [|discriminate].
  intros H. exists files. split; [done|].
  eapply loadAssets_loaded; [| |exact H]; [done|]. apply map_Forall_empty.
Qed.

(** With pairwise distinct routes, each listed path decides the entry at
    its own route and nothing else is touched. *)
Lemma loadAssets_lookup (files : list string) (m m' : gmap string Asset) :
  NoDup (route_of <$> files) ->
  loadAssets rt files m = Ok m' ->
  (forall p, p ∈ files ->
     exists e, entry_of p = Ok e /\
       m' !! route_of p = match e with Some a => Some a | None => m !! route_of p end)
  /\ (forall r, r ∉ (route_of <$> files) -> m' !! r = m !! r).
Proof.
  revert m. induction files as [|p files IH]; intros m Hnd; simpl.
  - intros [= <-]. split; [intros p Hp; by apply elem_of_nil in Hp|done].
  - rewrite fmap_cons in Hnd. apply NoDup_cons in Hnd as [Hp Hnd].
    rewrite loadAsset_entry.
    destruct (entry_of p) as [e|err] eqn:He; [|destruct err; discriminate].
    set (m1 := match e with Some a => <[route_of p := a]> m | None => m end).
    assert (forall r, r <> route_of p -> m1 !! r = m !! r) as Hm1.
    { intros r Hr. unfold m1. destruct e; [by rewrite lookup_insert_ne|done]. }
    assert (m1 !! route_of p =
            match e with Some a => Some a | None => m !! route_of p end) as Hm1p.
    { unfold m1. destruct e; [by rewrite lookup_insert_eq|done]. }
    intros Hload.
    assert (loadAssets rt files m1 = Ok m') as Hrest
      by (unfold m1; destruct e; exact Hload).
    destruct (IH m1 Hnd Hrest) as [IHin IHout]. split.
    + intros q Hq. apply elem_of_cons in Hq as [->|Hq].
      * exists e. split; [done|]. by rewrite IHout.
      * destruct (IHin q Hq) as (e' & He' & Hl). exists e'. split; [done|].
        rewrite Hl. destruct e'; [done|]. apply Hm1.
        intros Heq. apply Hp. rewrite <- Heq. by apply list_elem_of_fmap_2.
    + intros r Hr. rewrite ?fmap_cons in Hr. apply not_elem_of_cons in Hr as [Hr1 Hr2].
      rewrite IHout by done. by apply Hm1.
Qed.

(** Start-up loading succeeds when the listing and every read of a file
    bound for memory succeed. *)
Lemma loadAssets_ok (files : list string) (m : gmap string Asset) :
  (forall p, p ∈ files -> exists e, entry_of p = Ok e) ->
  exists m', loadAssets rt files m = Ok m'.
Proof.
  revert m. induction files as [|p files IH]; intros m Hok; simpl; [eauto|].
  rewrite loadAsset_entry.
  destruct (Hok p) as [e ->]; [by left|].
  destruct e; simpl; apply IH; intros q Hq; apply Hok; by right.
Qed.

Lemma entry_of_readable (p : string) :
  (file_exists (file_of p) = true ->
   (0 < file_size (file_of p) <= MAX_ASSET_SIZE)%N ->
   is_Some (arrayBuffer (file_of p))) ->
  exists e, entry_of p = Ok e.
Proof.
  intros Hrd. unfold entry_of.
  destruct (file_exists (file_of p)); [|simpl; eauto].
  destruct (file_size (file_of p) =? 0)%N eqn:Hz; [simpl; eauto|].
  apply N.eqb_neq in Hz. cbn [negb orb].
  destruct (file_size (file_of p) <=? MAX_ASSET_SIZE)%N eqn:Hle; [|eauto].
  apply N.leb_le in Hle. destruct Hrd as [c ->]; [done|lia|eauto].
Qed.

(** *** What [serveAsset] answers for each shape of entry *)

Definition not_modified : Response :=
  {| status := 304; headers := ∅; body := NoBody |}.

Definition base_headers (ty : string) : gmap string string :=
  <["Cache-Control" := CACHE_CONTROL]> (<["Content-Type" := ty]> ∅).

Definition spa_shell (indexHtml : string) : Response :=
  {| status := 200; headers := {[ "Content-Type" := "text/html" ]};
     body := TextBody indexHtml |}.

Definition accept_encoding (request : Request) : string :=
  str_or (req_headers request !! "accept-encoding") EmptyString.

Lemma serveAsset_memory (assets : gmap string Asset) (request : Request)
    (route ty : string) (c : bytes) :
  assets !! route = Some (memory_entry ty c) ->
  serveAsset assets request route =
  Some (if bool_decide (req_headers request !! "if-none-match"
                        = Some (generateETag rt c))
        then not_modified
        else
          let h := <["ETag" := generateETag rt c]> (base_headers ty) in
          if (GZIP_THRESHOLD <? N.of_nat (length c))%N
             && includes (accept_encoding request) "gzip"
          then {| status := 200; headers := <["Content-Encoding" := "gzip"]> h;
                  body := BytesBody (gzipSync rt c) |}
          else {| status := 200; headers := h; body := BytesBody c |}).
Proof.
  intros Hl. unfold serveAsset. rewrite Hl.
  cbn [memory_entry etag content gzipped type path ENABLE_ETAGS andb
       truthy_opt generateETag truthy_string].
  case_bool_decide; [reflexivity|].
  unfold accept_encoding, base_headers.
  destruct (GZIP_THRESHOLD <? N.of_nat (length c))%N; cbn [andb]; [|reflexivity].
  destruct (includes _ "gzip"); reflexivity.
Qed.

Lemma serveAsset_disk (assets : gmap string Asset) (request : Request)
    (route ty p : string) :
  assets !! route = Some (disk_entry ty p) ->
  serveAsset assets request route =
  if truthy_string p
  then Some {| status := 200; headers := base_headers ty; body := FileBody p |}
  else None.
Proof.
  intros Hl. unfold serveAsset. rewrite Hl.
  cbn [disk_entry etag content gzipped type path ENABLE_ETAGS andb
       truthy_opt default].
  reflexivity.
Qed.

Lemma serveAsset_absent (assets : gmap string Asset) (request : Request)
    (route : string) :
  assets !! route = None -> serveAsset assets request route = None.
Proof. intros Hl. unfold serveAsset. by rewrite Hl. Qed.

Lemma base_headers_lookup (ty : string) :
  base_headers ty !! "Cache-Control" = Some CACHE_CONTROL
  /\ base_headers ty !! "Content-Type" = Some ty
  /\ base_headers ty !! "ETag" = None
  /\ base_headers ty !! "Content-Encoding" = None.
Proof. unfold base_headers. repeat split; by simplify_map_eq. Qed.

Lemma loadAssets_throw (files : list string) (m : gmap string Asset) (p : string) :
  p ∈ files -> (exists e, entry_of p = Throw e) ->
  exists e, loadAssets rt files m = Throw e.
Proof.
  revert m. induction files as [|q files IH]; intros m Hin Hthrow.
  - by apply elem_of_nil in Hin.
  - simpl. rewrite loadAsset_entry.
    destruct (entry_of q) as [[a|]|e] eqn:He; simpl; [| |eauto].
    + apply elem_of_cons in Hin as [->|Hin]; [|by apply IH].
      destruct Hthrow as [e Hthrow]. congruence.
    + apply elem_of_cons in Hin as [->|Hin]; [|by apply IH].
      destruct Hthrow as [e Hthrow]. congruence.
Qed.

Lemma entry_of_unreadable (p : string) :
  file_exists (file_of p) = true ->
  (0 < file_size (file_of p) <= MAX_ASSET_SIZE)%N ->
  arrayBuffer (file_of p) = None ->
  entry_of p = Throw (ReadError (filepath_of p)).
Proof.
  intros Hex [Hpos Hle] Hrd. unfold entry_of. rewrite Hex, Hrd.
  destruct (N.eqb_spec (file_size (file_of p)) 0); [lia|].
  apply N.leb_le in Hle. by rewrite Hle.
Qed.

(** A loaded entry is served: under a non-empty disk path the static
    response is never missing for a registered route. *)
Lemma serveAsset_loaded (files : list string) (assets : gmap string Asset)
    (request : Request) (route : string) (asset : Asset) :
  (forall p, path_join rt CLIENT_DIR p <> EmptyString) ->
  loaded files route asset ->
  assets !! route = Some asset ->
  is_Some (serveAsset assets request route).
Proof.
  intros Hjoin [p c _ _ _ _ _|p _ _ _ _] Hl.
  - rewrite (serveAsset_memory _ _ _ _ _ Hl). eauto.
  - rewrite (serveAsset_disk _ _ _ _ _ Hl).
    destruct (truthy_string (filepath_of p)) eqn:Ht; [eauto|].
    exfalso. apply (Hjoin p). unfold filepath_of in Ht.
    by destruct (path_join rt CLIENT_DIR p).
Qed.

(** C1 (amended).  For every request, the handler answers from the asset
    map built at start-up and from nothing else: a route registered with
    its content in memory is served from memory (a 304, or a 200 carrying
    the content or its gzipped variant); a route registered with a disk
    path (a file above MAX_ASSET_SIZE) is answered with status 200 and
    that file as the body, read at request time; every other pathname,
    whatever the disk holds at request time, gets the SPA shell: status
    200, the index.html read at start-up, Content-Type text/html. *)
Theorem fetch_three_tiers (assets : gmap string Asset) (indexHtml : string)
    (request : Request) :
  (forall p, path_join rt CLIENT_DIR p <> EmptyString) ->
  loadStaticAssets rt ∅ = Ok assets ->
  match assets !! pathname request with
  | Some asset =>
      match content asset with
      | Some c =>
          fetch assets indexHtml request = not_modified
          \/ (status (fetch assets indexHtml request) = 200%Z
              /\ (body (fetch assets indexHtml request) = BytesBody c
                  \/ (gzipped asset = Some (gzipSync rt c)
                      /\ body (fetch assets indexHtml request)
                         = BytesBody (gzipSync rt c))))
      | None =>
          exists p, path asset = Some p
            /\ (MAX_ASSET_SIZE < file_size (Bun_file rt p))%N
            /\ fetch assets indexHtml request
               = {| status := 200; headers := base_headers (type asset);
                    body := FileBody p |}
      end
  | None =>
      fetch assets indexHtml request =
      {| status := 200; headers := {[ "Content-Type" := "text/html" ]};
         body := TextBody indexHtml |}
  end.
Proof.
  intros Hjoin Hload.
  destruct (loadStaticAssets_loaded _ Hload) as (files & _ & Hall).
  unfold fetch.
  destruct (assets !! pathname request) as [asset|] eqn:Hl.
  - pose proof (Hall _ _ Hl) as Hasset.
    destruct Hasset as [p c _ _ _ _ _|p _ _ Hex Hbig].
    + rewrite (serveAsset_memory _ _ _ _ _ Hl). cbn [memory_entry content gzipped].
      case_bool_decide; [by left|right].
      destruct (GZIP_THRESHOLD <? N.of_nat (length c))%N; cbn [andb]; [|by auto].
      destruct (includes _ "gzip"); cbn; auto.
    + rewrite (serveAsset_disk _ _ _ _ _ Hl). cbn [disk_entry content path type].
      exists (filepath_of p). split; [done|]. split; [exact Hbig|].
      destruct (truthy_string (filepath_of p)) eqn:Ht; [done|].
      exfalso. apply (Hjoin p). unfold filepath_of in Ht.
      by destruct (path_join rt CLIENT_DIR p).
  - by rewrite (serveAsset_absent _ _ _ Hl).
Qed.

(** C2 (amended).  When the listing succeeds, no two listed paths
    normalise to the same route and every file bound for memory can be
    read, start-up loading succeeds, and for every listed path: an
    existing non-empty file of size at most MAX_ASSET_SIZE is read fully
    into memory and registered under the route made of a slash and its
    relative path with every backslash replaced by a slash; an existing
    file strictly larger than MAX_ASSET_SIZE is registered under that
    route with null content and its disk path; a file that does not exist
    or has size 0 leaves its route unregistered. *)
Theorem loadStaticAssets_registers (files : list string) :
  readdir rt CLIENT_DIR = Some files ->
  NoDup (route_of <$> files) ->
  (forall p, p ∈ files -> file_exists (file_of p) = true ->
     (0 < file_size (file_of p) <= MAX_ASSET_SIZE)%N ->
     is_Some (arrayBuffer (file_of p))) ->
  exists assets, loadStaticAssets rt ∅ = Ok assets /\
    forall p, p ∈ files ->
      (file_exists (file_of p) = true ->
       (0 < file_size (file_of p) <= MAX_ASSET_SIZE)%N ->
       exists c, arrayBuffer (file_of p) = Some c /\
         assets !! route_of p = Some (memory_entry (type_of p) c))
      /\ (file_exists (file_of p) = true ->
          (MAX_ASSET_SIZE < file_size (file_of p))%N ->
          assets !! route_of p
          = Some {| content := None; type := type_of p; etag := None;
                    gzipped := None; path := Some (filepath_of p) |})
      /\ (file_exists (file_of p) = false \/ file_size (file_of p) = 0%N ->
          assets !! route_of p = None).
Proof.
  intros Hdir Hnd Hread. unfold loadStaticAssets. rewrite Hdir.
  destruct (loadAssets_ok files ∅) as [assets Hload].
  { intros p Hp. apply entry_of_readable. by apply Hread. }
  exists assets. split; [done|]. intros p Hp.
  destruct (loadAssets_lookup _ _ _ Hnd Hload) as [Hin _].
  destruct (Hin p Hp) as (e & He & Hl). rewrite lookup_empty in Hl.
  unfold entry_of in He. repeat split.
  - intros Hex [Hpos Hle]. rewrite Hex in He.
    destruct (N.eqb_spec (file_size (file_of p)) 0); [lia|].
    apply N.leb_le in Hle. rewrite Hle in He. cbn [negb orb] in He.
    destruct (arrayBuffer (file_of p)) as [c|]; [|discriminate].
    exists c. split; [done|]. injection He as <-. exact Hl.
  - intros Hex Hbig. rewrite Hex in He.
    destruct (N.eqb_spec (file_size (file_of p)) 0); [lia|].
    apply N.leb_gt in Hbig. rewrite Hbig in He. cbn [negb orb] in He.
    injection He as <-. exact Hl.
  - intros [Hex|Hz].
    + rewrite Hex in He. cbn [negb orb] in He. injection He as <-. exact Hl.
    + rewrite Hz in He. rewrite orb_true_r in He. injection He as <-. exact Hl.
Qed.

(** C3.  Every asset loaded into memory stores as its ETag the MD5 digest
    of its content in lower-case hexadecimal between double quotes; a
    request for it whose If-None-Match equals that ETag gets status 304
    with an empty body, and every other request for it gets status 200
    with the ETag header set to that value. *)
Theorem etag_conditional_request (assets : gmap string Asset) (route : string)
    (asset : Asset) (c : bytes) :
  loadStaticAssets rt ∅ = Ok assets ->
  assets !! route = Some asset ->
  content asset = Some c ->
  let tag := String dquote (hex (md5 rt c) +:+ String dquote EmptyString) in
  etag asset = Some tag
  /\ string_forall is_lower_hex (hex (md5 rt c)) = true
  /\ forall (indexHtml : string) (request : Request),
       pathname request = route ->
       (req_headers request !! "if-none-match" = Some tag ->
        status (fetch assets indexHtml request) = 304%Z
        /\ body (fetch assets indexHtml request) = NoBody)
       /\ (req_headers request !! "if-none-match" <> Some tag ->
           status (fetch assets indexHtml request) = 200%Z
           /\ headers (fetch assets indexHtml request) !! "ETag" = Some tag).
Proof.
  intros Hload Hl Hc tag.
  destruct (loadStaticAssets_loaded _ Hload) as (files & _ & Hall).
  pose proof (Hall _ _ Hl) as Hasset.
  destruct Hasset as [p c' _ _ _ _ _|p _ _ _ _]; [|discriminate].
  injection Hc as ->. split; [reflexivity|]. split; [apply hex_lower|].
  intros indexHtml request <-. unfold fetch.
  rewrite (serveAsset_memory _ _ _ _ _ Hl). fold tag.
  change (generateETag rt c) with tag.
  split; intros Hinm.
  - by rewrite bool_decide_eq_true_2.
  - rewrite bool_decide_eq_false_2 by done.
    destruct (GZIP_THRESHOLD <? N.of_nat (length c))%N; cbn [andb];
      [destruct (includes _ "gzip")|]; cbn [status headers];
      (split; [reflexivity|by simplify_map_eq]).
Qed.

(** C4 (amended).  For every asset loaded into memory a gzipped variant
    is precomputed exactly when the content is longer than GZIP_THRESHOLD
    (1024 bytes); a request for it that is not answered with 304 (its
    If-None-Match differs from the asset's ETag) gets the gzipped body
    and Content-Encoding: gzip exactly when the variant exists and the
    Accept-Encoding header contains the substring gzip, and in every
    other such case the identity content with no Content-Encoding
    header. *)
Theorem gzip_negotiation (assets : gmap string Asset) (route : string)
    (asset : Asset) (c : bytes) :
  loadStaticAssets rt ∅ = Ok assets ->
  assets !! route = Some asset ->
  content asset = Some c ->
  (is_Some (gzipped asset) <-> (GZIP_THRESHOLD < N.of_nat (length c))%N)
  /\ (forall g, gzipped asset = Some g -> g = gzipSync rt c)
  /\ forall (indexHtml : string) (request : Request),
       pathname request = route ->
       req_headers request !! "if-none-match" <> etag asset ->
       let response := fetch assets indexHtml request in
       let accepts :=
         exists pre post,
           default EmptyString (req_headers request !! "accept-encoding")
           = pre +:+ "gzip" +:+ post in
       (is_Some (gzipped asset) /\ accepts ->
        body response = BytesBody (gzipSync rt c)
        /\ headers response !! "Content-Encoding" = Some "gzip")
       /\ (~ (is_Some (gzipped asset) /\ accepts) ->
           body response = BytesBody c
           /\ headers response !! "Content-Encoding" = None).
Proof.
  intros Hload Hl Hc.
  destruct (loadStaticAssets_loaded _ Hload) as (files & _ & Hall).
  pose proof (Hall _ _ Hl) as Hasset.
  destruct Hasset as [p c' _ _ _ _ _|p _ _ _ _]; [|discriminate].
  injection Hc as ->. cbn [memory_entry gzipped etag].
  destruct (N.ltb_spec GZIP_THRESHOLD (N.of_nat (length c))) as [Hlen|Hlen].
  - split; [split; [done|eauto]|]. split; [by intros g [= <-]|].
    intros indexHtml request <- Hinm. unfold fetch.
    rewrite (serveAsset_memory _ _ _ _ _ Hl).
    rewrite bool_decide_eq_false_2 by done.
    apply N.ltb_lt in Hlen. rewrite Hlen. cbn [andb].
    unfold accept_encoding. rewrite str_or_default.
    destruct (includes _ "gzip") eqn:Hinc.
    + split; [intros _; split; [reflexivity|by simplify_map_eq]|].
      intros Hno. exfalso. apply Hno. split; [eauto|]. by apply includes_spec.
    + split.
      * intros [_ Hacc]. apply includes_spec in Hacc. congruence.
      * intros _. split; [reflexivity|]. cbn [headers]. unfold base_headers.
        by simplify_map_eq.
  - split; [split; [intros [g [=]]|lia]|]. split; [by intros g [=]|].
    intros indexHtml request <- Hinm. unfold fetch.
    rewrite (serveAsset_memory _ _ _ _ _ Hl).
    rewrite bool_decide_eq_false_2 by done.
    assert ((GZIP_THRESHOLD <? N.of_nat (length c))%N = false) as ->
      by (apply N.ltb_ge; lia).
    cbn [andb]. split; [intros [[g [=]] _]|].
    intros _. split; [reflexivity|]. cbn [headers]. unfold base_headers.
    by simplify_map_eq.
Qed.

(** C7.  When start-up fails, because listing the asset directory throws,
    or reading a listed file bound for memory throws, or reading
    index.html throws, the server is never started: the process ends in
    the exited state with code 1, in which no request is answered. *)
Theorem startup_failure_exits :
  readdir rt CLIENT_DIR = None
  \/ (exists files p, readdir rt CLIENT_DIR = Some files /\ p ∈ files
        /\ file_exists (file_of p) = true
        /\ (0 < file_size (file_of p) <= MAX_ASSET_SIZE)%N
        /\ arrayBuffer (file_of p) = None)
  \/ file_text rt (Bun_file rt (path_join rt CLIENT_DIR "index.html")) = None ->
  main rt = Exited 1
  /\ (forall srv, main rt <> Listening srv)
  /\ forall request, respond (main rt) request = None.
Proof.
  intros Hfail.
  assert (exists e, startServer rt ∅ = Throw e) as [e He].
  { unfold startServer, loadStaticAssets.
    destruct Hfail as [Hdir|[(files & p & Hdir & Hp & Hex & Hsz & Hrd)|Hidx]].
    - rewrite Hdir. simpl. eauto.
    - rewrite Hdir.
      destruct (loadAssets_throw files ∅ p Hp) as [e ->]; [|simpl; eauto].
      eexists. by apply entry_of_unreadable.
    - destruct (match readdir rt CLIENT_DIR with
                | Some files => loadAssets rt files ∅
                | None => Throw ReaddirError
                end) as [m|e]; simpl; [|eauto].
      rewrite Hidx. eauto. }
  unfold main. rewrite He. repeat split; done.
Qed.

(** C8.  An asset registered with a disk path belongs to a file strictly
    larger than MAX_ASSET_SIZE, and whatever If-None-Match and
    Accept-Encoding a request for it carries, the response has neither an
    ETag nor a Content-Encoding header and its status is 200, never
    304. *)
Theorem disk_tier_plain (assets : gmap string Asset) (route : string)
    (asset : Asset) (p : string) :
  loadStaticAssets rt ∅ = Ok assets ->
  assets !! route = Some asset ->
  path asset = Some p ->
  (MAX_ASSET_SIZE < file_size (Bun_file rt p))%N
  /\ forall (indexHtml : string) (request : Request),
       pathname request = route ->
       headers (fetch assets indexHtml request) !! "ETag" = None
       /\ headers (fetch assets indexHtml request) !! "Content-Encoding" = None
       /\ status (fetch assets indexHtml request) = 200%Z
       /\ status (fetch assets indexHtml request) <> 304%Z.
Proof.
  intros Hload Hl Hp.
  destruct (loadStaticAssets_loaded _ Hload) as (files & _ & Hall).
  pose proof (Hall _ _ Hl) as Hasset.
  destruct Hasset as [q c _ _ _ _ _|q _ _ _ Hbig]; [discriminate|].
  injection Hp as <-. split; [exact Hbig|].
  intros indexHtml request <-. unfold fetch.
  rewrite (serveAsset_disk _ _ _ _ _ Hl).
  destruct (truthy_string (filepath_of q)); cbn [headers status];
    unfold base_headers; repeat split; try done; by simplify_map_eq.
Qed.

End Loading.

(** C9.  Every response [serveAsset] returns has status 200 or 304; one
    with status 200 carries Cache-Control: public, max-age=31536000,
    immutable, and one with status 304 has an empty body and no headers
    at all. *)
Theorem serveAsset_cache_headers (assets : gmap string Asset)
    (request : Request) (route : string) (response : Response) :
  serveAsset assets request route = Some response ->
  (status response = 200%Z \/ status response = 304%Z)
  /\ (status response = 200%Z ->
      headers response !! "Cache-Control"
      = Some "public, max-age=31536000, immutable")
  /\ (status response = 304%Z ->
      body response = NoBody /\ headers response = ∅
      /\ headers response !! "ETag" = None
      /\ headers response !! "Cache-Control" = None).
Proof.
  unfold serveAsset. destruct (assets !! route) as [asset|]; [|discriminate].
  destruct (ENABLE_ETAGS && truthy_opt (etag asset) && bool_decide _).
  - intros [= <-]. cbn. repeat split; auto; discriminate.
  - assert (forall h : gmap string string,
              match etag asset with
              | Some e => if truthy_string e
                          then <["ETag" := e]> (<["Cache-Control" := CACHE_CONTROL]> h)
                          else <["Cache-Control" := CACHE_CONTROL]> h
              | None => <["Cache-Control" := CACHE_CONTROL]> h
              end !! "Cache-Control" = Some CACHE_CONTROL) as Hcc.
    { intros h. destruct (etag asset) as [e|]; [destruct (truthy_string e)|];
        by simplify_map_eq. }
    destruct (content asset) as [c|].
    + destruct (gzipped asset) as [g|]; [destruct (includes _ "gzip")|];
        intros [= <-]; cbn [status headers body];
        (split; [by left|]); (split; [intros _|discriminate]);
        try apply Hcc.
      rewrite lookup_insert_ne by done. apply Hcc.
    + destruct (truthy_opt (path asset)); [|discriminate].
      intros [= <-]; cbn [status headers body].
      split; [by left|]. split; [intros _; apply Hcc|discriminate].
Qed.

End AssetServerFacts.

(** *** A concrete runtime

    A small client directory as a Windows listing would give it: the SPA
    shell, a script in a sub-directory, an empty stylesheet, a video above
    the memory limit and a listed name that no longer exists. *)

Module AssetServerExamples.
Import JS JSFacts AssetServer AssetServerFacts.

Fixpoint strip_slashes (p : string) : string :=
  match p with
  | String "/"%char rest => strip_slashes rest
  | _ => p
  end.

(** [path.join(".", p)] for a normalised relative [p]. *)
Definition demo_join (dir p : string) : string :=
  match strip_slashes p with
  | EmptyString => dir
  | q => q
  end.

(** A stand-in for [Bun.gzipSync]: the gzip magic number before the data. *)
Definition demo_gzip (c : bytes) : bytes := [x1f; x8b; x08] ++ c.

Definition demo_decode (c : bytes) : string := string_of_list_byte c.

Definition present (ty : string) (c : bytes) : BunFile :=
  {| file_exists := true; file_size := N.of_nat (length c);
     file_type := ty; arrayBuffer := Some c |}.

Definition absent : BunFile :=
  {| file_exists := false; file_size := 0; file_type := EmptyString;
     arrayBuffer := None |}.

(** An existing file whose bytes cannot be read. *)
Definition unreadable (ty : string) (size : N) : BunFile :=
  {| file_exists := true; file_size := size; file_type := ty;
     arrayBuffer := None |}.

Definition index_bytes : bytes :=
  list_byte_of_string "<!doctype html><div id=root></div>".

Definition app_bytes : bytes :=
  list_byte_of_string "console.log('blog');" ++ repeat x20 1100.

Definition demo_disk (p : string) : BunFile :=
  if String.eqb p "index.html" then present "text/html;charset=utf-8" index_bytes
  else if String.eqb p "assets\app.js" then present "text/javascript;charset=utf-8" app_bytes
  else if String.eqb p "empty.css" then present "text/css;charset=utf-8" []
  else if String.eqb p "video.mp4" then unreadable "video/mp4" (6 * 1024 * 1024)
  else absent.

Definition demo_listing : list string :=
  [ "index.html"; "assets\app.js"; "empty.css"; "video.mp4"; "gone.txt" ].

Definition runtime_on (listing : option (list string)) (disk : string -> BunFile)
  : Runtime :=
  {| path_join := demo_join; md5 := MD5.digest; gzipSync := demo_gzip;
     decode_text := demo_decode;
     readdir := fun dir => if String.eqb dir "." then listing else None;
     Bun_file := disk; PORT := 3000 |}.

Definition demo : Runtime := runtime_on (Some demo_listing) demo_disk.

Definition demo_assets : gmap string Asset :=
  match loadStaticAssets demo ∅ with
  | Ok assets => assets
  | Throw _ => ∅
  end.

Definition demo_index : string := demo_decode index_bytes.

Definition app_etag : string := generateETag demo app_bytes.

Lemma demo_loads : loadStaticAssets demo ∅ = Ok demo_assets.
Proof. vm_compute. reflexivity. Qed.

Lemma demo_join_nonempty (p : string) : path_join demo CLIENT_DIR p <> EmptyString.
Proof. cbn. unfold demo_join. destruct (strip_slashes p); discriminate. Qed.

Example demo_routes :
  dom demo_assets = {[ "/index.html"; "/assets/app.js"; "/video.mp4" ]}.
Proof. vm_compute. reflexivity. Qed.

Example demo_main_listens :
  main demo = Listening {| port := 3000; served_assets := demo_assets;
                           served_index := demo_index |}.
Proof. vm_compute. reflexivity. Qed.

Example app_etag_value :
  app_etag = String dquote ("8b16aebb872c53f2f9bac5991373024b" +:+ String dquote EmptyString).
Proof. vm_compute. reflexivity. Qed.

Definition app_asset : Asset :=
  memory_entry demo "text/javascript;charset=utf-8" app_bytes.

Definition video_asset : Asset :=
  disk_entry "video/mp4" "video.mp4".

Definition app_request (hs : gmap string string) : Request :=
  {| pathname := "/assets/app.js"; req_headers := hs |}.

Definition video_request : Request :=
  {| pathname := "/video.mp4";
     req_headers := {[ "accept-encoding" := "gzip"; "if-none-match" := app_etag ]} |}.

Definition empty_css_request : Request :=
  {| pathname := "/empty.css"; req_headers := ∅ |}.

Lemma demo_app : demo_assets !! "/assets/app.js" = Some app_asset.
Proof. vm_compute. reflexivity. Qed.

Lemma demo_video : demo_assets !! "/video.mp4" = Some video_asset.
Proof. vm_compute. reflexivity. Qed.

Example fetch_app_gzip :
  fetch demo_assets demo_index (app_request {[ "accept-encoding" := "gzip, br" ]})
  = {| status := 200;
       headers := {[ "Content-Type" := "text/javascript;charset=utf-8";
                     "Cache-Control" := CACHE_CONTROL;
                     "ETag" := app_etag;
                     "Content-Encoding" := "gzip" ]};
       body := BytesBody (demo_gzip app_bytes) |}.
Proof. vm_compute. reflexivity. Qed.

Example fetch_unknown_route :
  fetch demo_assets demo_index {| pathname := "/blog/hello"; req_headers := ∅ |}
  = spa_shell demo_index.
Proof. vm_compute. reflexivity. Qed.

(** Witness of [fetch_three_tiers]: the request for the video. *)
Lemma fetch_three_tiers_witness :
  match demo_assets !! pathname video_request with
  | Some asset =>
      match content asset with
      | Some c =>
          fetch demo_assets demo_index video_request = not_modified
          \/ (status (fetch demo_assets demo_index video_request) = 200%Z
              /\ (body (fetch demo_assets demo_index video_request) = BytesBody c
                  \/ (gzipped asset = Some (gzipSync demo c)
                      /\ body (fetch demo_assets demo_index video_request)
                         = BytesBody (gzipSync demo c))))
      | None =>
          exists p, path asset = Some p
            /\ (MAX_ASSET_SIZE < file_size (Bun_file demo p))%N
            /\ fetch demo_assets demo_index video_request
               = {| status := 200; headers := base_headers (type asset);
                    body := FileBody p |}
      end
  | None =>
      fetch demo_assets demo_index video_request =
      {| status := 200; headers := {[ "Content-Type" := "text/html" ]};
         body := TextBody demo_index |}
  end.
Proof.
  exact (fetch_three_tiers demo demo_assets demo_index video_request
           demo_join_nonempty demo_loads).
Defined.

(** C1, as the specification words it, fails on the code: the empty
    stylesheet exists on disk but was skipped at start-up, so the handler
    answers with the SPA shell where the literal algorithm would read the
    file from disk. *)
Lemma fetch_differs_from_spec_fetch :
  file_exists (Bun_file demo (path_join demo CLIENT_DIR "/empty.css")) = true
  /\ demo_assets !! "/empty.css" = None
  /\ fetch demo_assets demo_index empty_css_request
     = {| status := 200; headers := {[ "Content-Type" := "text/html" ]};
          body := TextBody demo_index |}
  /\ spec_fetch demo demo_assets demo_index empty_css_request
     = {| status := 200;
          headers := {[ "Content-Type" := "text/css;charset=utf-8" ]};
          body := FileBody "empty.css" |}
  /\ fetch demo_assets demo_index empty_css_request
     <> spec_fetch demo demo_assets demo_index empty_css_request.
Proof.
  repeat split; try (vm_compute; reflexivity).
  vm_compute. discriminate.
Qed.

Lemma demo_routes_distinct : NoDup (route_of <$> demo_listing).
Proof. apply (bool_decide_unpack _). vm_compute. exact I. Qed.

Lemma demo_readable (p : string) :
  p ∈ demo_listing -> file_exists (file_of demo p) = true ->
  (0 < file_size (file_of demo p) <= MAX_ASSET_SIZE)%N ->
  is_Some (arrayBuffer (file_of demo p)).
Proof.
  intros Hp. unfold demo_listing in Hp.
  repeat (apply elem_of_cons in Hp as [->|Hp]);
    [| | | | |by apply elem_of_nil in Hp]; vm_compute; intros Hex Hsz;
    try (eexists; reflexivity); try discriminate;
    destruct Hsz as [Hlt Hle]; first [discriminate Hlt | exfalso; by apply Hle].
Qed.

(** Witness of [loadStaticAssets_registers]: the demo directory. *)
Lemma loadStaticAssets_registers_witness :
  exists assets, loadStaticAssets demo ∅ = Ok assets /\
    forall p, p ∈ demo_listing ->
      (file_exists (file_of demo p) = true ->
       (0 < file_size (file_of demo p) <= MAX_ASSET_SIZE)%N ->
       exists c, arrayBuffer (file_of demo p) = Some c /\
         assets !! route_of p = Some (memory_entry demo (type_of demo p) c))
      /\ (file_exists (file_of demo p) = true ->
          (MAX_ASSET_SIZE < file_size (file_of demo p))%N ->
          assets !! route_of p
          = Some {| content := None; type := type_of demo p; etag := None;
                    gzipped := None; path := Some (filepath_of demo p) |})
      /\ (file_exists (file_of demo p) = false \/ file_size (file_of demo p) = 0%N ->
          assets !! route_of p = None).
Proof.
  exact (loadStaticAssets_registers demo demo_listing eq_refl
           demo_routes_distinct demo_readable).
Defined.

(** C2, as stated, fails on the code: the listed script exists, is
    non-empty and below the limit, yet nothing is registered under a
    slash followed by its relative path; its route has the backslash
    replaced. *)
Lemma backslash_route_unregistered :
  "assets\app.js" ∈ demo_listing
  /\ file_exists (file_of demo "assets\app.js") = true
  /\ (0 < file_size (file_of demo "assets\app.js") <= MAX_ASSET_SIZE)%N
  /\ loadStaticAssets demo ∅ = Ok demo_assets
  /\ demo_assets !! ("/" +:+ "assets\app.js") = None
  /\ demo_assets !! "/assets/app.js" = Some app_asset.
Proof.
  split; [unfold demo_listing; set_solver|].
  split; [reflexivity|]. split; [by vm_compute|].
  split; [exact demo_loads|]. split; vm_compute; reflexivity.
Qed.

(** Witness of [etag_conditional_request]: the script of the demo. *)
Lemma etag_conditional_request_witness :
  let tag := String dquote (hex (md5 demo app_bytes) +:+ String dquote EmptyString) in
  etag app_asset = Some tag
  /\ string_forall is_lower_hex (hex (md5 demo app_bytes)) = true
  /\ forall (indexHtml : string) (request : Request),
       pathname request = "/assets/app.js" ->
       (req_headers request !! "if-none-match" = Some tag ->
        status (fetch demo_assets indexHtml request) = 304%Z
        /\ body (fetch demo_assets indexHtml request) = NoBody)
       /\ (req_headers request !! "if-none-match" <> Some tag ->
           status (fetch demo_assets indexHtml request) = 200%Z
           /\ headers (fetch demo_assets indexHtml request) !! "ETag" = Some tag).
Proof.
  exact (etag_conditional_request demo demo_assets "/assets/app.js" app_asset
           app_bytes demo_loads demo_app eq_refl).
Defined.

(** Witness of [gzip_negotiation]: the script of the demo. *)
Lemma gzip_negotiation_witness :
  (is_Some (gzipped app_asset) <-> (GZIP_THRESHOLD < N.of_nat (length app_bytes))%N)
  /\ (forall g, gzipped app_asset = Some g -> g = gzipSync demo app_bytes)
  /\ forall (indexHtml : string) (request : Request),
       pathname request = "/assets/app.js" ->
       req_headers request !! "if-none-match" <> etag app_asset ->
       let response := fetch demo_assets indexHtml request in
       let accepts :=
         exists pre post,
           default EmptyString (req_headers request !! "accept-encoding")
           = pre +:+ "gzip" +:+ post in
       (is_Some (gzipped app_asset) /\ accepts ->
        body response = BytesBody (gzipSync demo app_bytes)
        /\ headers response !! "Content-Encoding" = Some "gzip")
       /\ (~ (is_Some (gzipped app_asset) /\ accepts) ->
           body response = BytesBody app_bytes
           /\ headers response !! "Content-Encoding" = None).
Proof.
  exact (gzip_negotiation demo demo_assets "/assets/app.js" app_asset
           app_bytes demo_loads demo_app eq_refl).
Defined.

(** C4, as stated, fails on the code: the script has a gzipped variant
    and the request accepts gzip, but its If-None-Match equals the ETag,
    so the answer is a 304 with neither the gzipped body nor the
    identity content. *)
Lemma gzip_skipped_on_not_modified :
  let request :=
    app_request {[ "accept-encoding" := "gzip, deflate";
                   "if-none-match" := app_etag ]} in
  gzipped app_asset = Some (demo_gzip app_bytes)
  /\ includes (accept_encoding request) "gzip" = true
  /\ fetch demo_assets demo_index request
     = {| status := 304; headers := ∅; body := NoBody |}
  /\ body (fetch demo_assets demo_index request) <> BytesBody (demo_gzip app_bytes)
  /\ body (fetch demo_assets demo_index request) <> BytesBody app_bytes
  /\ headers (fetch demo_assets demo_index request) !! "Content-Encoding" = None.
Proof.
  cbv zeta. split; [reflexivity|]. split; [reflexivity|].
  assert (fetch demo_assets demo_index
            (app_request {[ "accept-encoding" := "gzip, deflate";
                            "if-none-match" := app_etag ]})
          = {| status := 304; headers := ∅; body := NoBody |}) as ->
    by (vm_compute; reflexivity).
  repeat split; discriminate.
Qed.

(** A directory holding a file that exists but cannot be read. *)
Definition locked_disk (p : string) : BunFile :=
  if String.eqb p "locked.bin" then unreadable "application/octet-stream" 10
  else demo_disk p.

Definition locked : Runtime :=
  runtime_on (Some [ "index.html"; "locked.bin" ]) locked_disk.

(** Witness of [startup_failure_exits]: reading a listed file throws. *)
Lemma startup_failure_exits_witness :
  main locked = Exited 1
  /\ (forall srv, main locked <> Listening srv)
  /\ forall request, respond (main locked) request = None.
Proof.
  apply (startup_failure_exits locked). right. left.
  exists [ "index.html"; "locked.bin" ], "locked.bin".
  split; [reflexivity|]. split; [set_solver|]. split; [reflexivity|].
  split; [by vm_compute|reflexivity].
Defined.

Example startup_without_listing :
  main (runtime_on None demo_disk) = Exited 1.
Proof. reflexivity. Qed.

Example startup_without_index :
  main (runtime_on (Some []) (fun _ => absent)) = Exited 1.
Proof. reflexivity. Qed.

(** Witness of [disk_tier_plain]: the video of the demo. *)
Lemma disk_tier_plain_witness :
  (MAX_ASSET_SIZE < file_size (Bun_file demo "video.mp4"))%N
  /\ forall (indexHtml : string) (request : Request),
       pathname request = "/video.mp4" ->
       headers (fetch demo_assets indexHtml request) !! "ETag" = None
       /\ headers (fetch demo_assets indexHtml request) !! "Content-Encoding" = None
       /\ status (fetch demo_assets indexHtml request) = 200%Z
       /\ status (fetch demo_assets indexHtml request) <> 304%Z.
Proof.
  exact (disk_tier_plain demo demo_assets "/video.mp4" video_asset "video.mp4"
           demo_loads demo_video eq_refl).
Defined.

Definition app_response : Response :=
  fetch demo_assets demo_index (app_request {[ "accept-encoding" := "gzip" ]}).

Lemma app_served :
  serveAsset demo_assets (app_request {[ "accept-encoding" := "gzip" ]})
    "/assets/app.js" = Some app_response.
Proof. vm_compute. reflexivity. Qed.

(** Witness of [serveAsset_cache_headers]: the gzipped script. *)
Lemma serveAsset_cache_headers_witness :
  (status app_response = 200%Z \/ status app_response = 304%Z)
  /\ (status app_response = 200%Z ->
      headers app_response !! "Cache-Control"
      = Some "public, max-age=31536000, immutable")
  /\ (status app_response = 304%Z ->
      body app_response = NoBody /\ headers app_response = ∅
      /\ headers app_response !! "ETag" = None
      /\ headers app_response !! "Cache-Control" = None).
Proof.
  exact (serveAsset_cache_headers demo_assets
           (app_request {[ "accept-encoding" := "gzip" ]})
           "/assets/app.js" app_response app_served).
Defined.

End AssetServerExamples.

(** ** The blog API client *)

Module BlogApiFacts.
Import JS JSFacts BlogApi.

Section Client.
Variable env : Browser.

Lemma getAuthHeaders_ok (document_cookie : string) (token : option string) :
  getCSRFToken env document_cookie = Ok token ->
  getAuthHeaders env document_cookie
  = Ok {[ "X-CSRFToken" := default EmptyString token ]}.
Proof.
  intros H. unfold getAuthHeaders. rewrite H. cbn [bind].
  by rewrite str_or_default.
Qed.

Lemma postPayload_ok (document_cookie : string) (token : option string)
    (data : list (string * value)) :
  getCSRFToken env document_cookie = Ok token ->
  exists payload, postPayload env document_cookie data = Ok payload
    /\ payload.2 !! "X-CSRFToken" = Some (default EmptyString token).
Proof.
  intros H. unfold postPayload. rewrite (getAuthHeaders_ok _ _ H).
  destruct (instanceof_File _ || instanceof_File _); cbn [bind];
    eexists; (split; [reflexivity|]); cbn [snd]; by simplify_map_eq.
Qed.

(** C5 (amended).  Whenever the CSRF cookie can be read, every call of
    the client's write functions issues a POST, PATCH or DELETE request;
    the requests of createPost, updatePost, deletePost, uploadBlogImage
    and the category and tag functions carry an X-CSRFToken header
    holding the token read from the cookie (the empty string when the
    cookie is absent), while the POST of incrementViewCount carries no
    headers at all. *)
Theorem csrf_header_on_writes (document_cookie : string)
    (token : option string) (c : ApiCall) :
  getCSRFToken env document_cookie = Ok token ->
  exists request, issue env document_cookie c = Ok request
    /\ is_state_changing request = true
    /\ match c with
       | IncrementViewCount _ => headers request = ∅
       | _ => headers request !! "X-CSRFToken"
              = Some (match token with Some t => t | None => EmptyString end)
       end.
Proof.
  intros H. pose proof (getAuthHeaders_ok _ _ H) as Hauth.
  destruct c; cbn [issue];
    unfold createPost, updatePost, deletePost, uploadBlogImage, createCategory,
      updateCategory, deleteCategory, createTag, updateTag, deleteTag,
      jsonWrite, jsonDelete;
    try (destruct (postPayload_ok document_cookie token data H) as (payload & -> & Hp));
    rewrite ?Hauth; cbn [bind];
    eexists; (split; [reflexivity|]); (split; [reflexivity|]);
    cbn [headers]; try done; by simplify_map_eq.
Qed.

End Client.

(** *** A concrete browser *)

Definition demo_browser : Browser :=
  {| PROJECT_NAME := "django";
     API_BASE := "/api/v1";
     (* text without escapes decodes to itself; escapes are not modelled *)
     decodeURIComponent := fun s => if includes s "%" then None else Some s;
     JSON_stringify := fun _ => "{...}";
     String_of := fun v => match v with Str s => s | _ => "[object]" end |}.

Definition demo_cookie : string :=
  "theme=dark; django_csrftoken=abc123; django_sessionid=xyz".

Example csrf_token_read :
  getCSRFToken demo_browser demo_cookie = Ok (Some "abc123").
Proof. reflexivity. Qed.

Example csrf_token_absent :
  getCSRFToken demo_browser "theme=dark" = Ok None
  /\ getCSRFToken demo_browser EmptyString = Ok None.
Proof. split; reflexivity. Qed.

Example csrf_token_malformed :
  getCSRFToken demo_browser "django_csrftoken=%E0%A4%A" = Throw MalformedURI.
Proof. reflexivity. Qed.

Example deletePost_request :
  deletePost demo_browser demo_cookie "hello-world"
  = Ok {| url := "/api/v1/blog/posts/hello-world/"; method := Some "DELETE";
          headers := {[ "X-CSRFToken" := "abc123" ]};
          credentials := Some "include"; body := None |}.
Proof. vm_compute. reflexivity. Qed.

Definition demo_post : list (string * value) :=
  [ ("title", Str "Hello"); ("content", Str "World"); ("status", Str "draft") ].

(** Witness of [csrf_header_on_writes]: creating a post. *)
Lemma csrf_header_on_writes_witness :
  exists request, issue demo_browser demo_cookie (CreatePost demo_post) = Ok request
    /\ is_state_changing request = true
    /\ headers request !! "X-CSRFToken" = Some "abc123".
Proof.
  exact (csrf_header_on_writes demo_browser demo_cookie (Some "abc123")
           (CreatePost demo_post) eq_refl).
Defined.

(** C5, as stated, fails on the code: the POST of incrementViewCount is
    state-changing and carries no X-CSRFToken header, although the
    cookie holds a token. *)
Lemma view_count_post_without_csrf :
  getCSRFToken demo_browser demo_cookie = Ok (Some "abc123")
  /\ issue demo_browser demo_cookie (IncrementViewCount "hello-world")
     = Ok {| url := "/api/v1/blog/posts/hello-world/view/";
             method := Some "POST"; headers := ∅;
             credentials := None; body := None |}
  /\ is_state_changing (incrementViewCount demo_browser "hello-world") = true
  /\ headers (incrementViewCount demo_browser "hello-world") !! "X-CSRFToken" = None.
Proof. repeat split. Qed.

End BlogApiFacts.

(** ** The theme loader *)

Module ThemeLoaderFacts.
Import JS JSFacts ThemeLoader.

(** A property read that cannot throw, for stating what a value holds. *)
Definition field (v : value) (k : string) : value :=
  match get v k with
  | Ok x => x
  | Throw _ => Undefined
  end.

(** The conjunction [validateThemeData] evaluates, as a boolean. *)
Definition validates (themeData : value) : bool :=
  match themeData with
  | Obj props =>
      (truthy (lookup_prop "theme_name" props) || truthy (lookup_prop "name" props))
      && truthy (lookup_prop "display_name" props)
      && truthy (lookup_prop "cssVars" props)
      && truthy (field (lookup_prop "cssVars" props) "theme")
      && truthy (field (lookup_prop "cssVars" props) "light")
      && truthy (field (lookup_prop "cssVars" props) "dark")
  | _ => false
  end.

(** Validation never throws, and its result is truthy exactly on
    [validates]. *)
Lemma validateThemeData_validates (themeData : value) :
  exists v, validateThemeData themeData = Ok v /\ truthy v = validates themeData.
Proof.
  destruct themeData as [| |[]|q|s|items|props|name];
    try (eexists; split; reflexivity).
  - unfold validateThemeData, and_then. cbn [bind truthy].
    destruct (negb (Qnum q =? 0)%Z) eqn:Hq; cbn; rewrite ?Hq; eauto.
  - unfold validateThemeData, and_then. cbn [bind truthy].
    destruct (truthy_string s) eqn:Hs; cbn; rewrite ?Hs; eauto.
  - unfold validateThemeData, and_then, or_else, validates.
    cbn [bind truthy typeof_object get].
    generalize (lookup_prop "theme_name" props) as tn,
               (lookup_prop "name" props) as nm,
               (lookup_prop "display_name" props) as dn,
               (lookup_prop "cssVars" props) as cssVars.
    intros tn nm dn cssVars.
    destruct (truthy tn) eqn:Htn, (truthy nm) eqn:Hnm, (truthy dn) eqn:Hdn;
      cbn [orb andb bind]; rewrite ?Htn, ?Hnm, ?Hdn; eauto;
      (destruct cssVars as [| |[]|q|s|items|cs|name]; cbn; eauto;
       [ destruct (negb (Qnum q =? 0)%Z) eqn:Hq; cbn; rewrite ?Hq; eauto
       | destruct (truthy_string s) eqn:Hs; cbn; rewrite ?Hs; eauto
       | destruct (truthy (lookup_prop "theme" cs)) eqn:H4,
                  (truthy (lookup_prop "light" cs)) eqn:H5;
           cbn; rewrite ?H4, ?H5; eauto ]).
  - unfold validateThemeData, and_then, or_else.
    cbn [bind truthy typeof_object get String.eqb Ascii.eqb Bool.eqb].
    destruct (truthy_string name) eqn:Hn; cbn; rewrite ?Hn; eauto.
Qed.

(** The theme data passes validation: the call returns a truthy value. *)
Definition passes (themeData : value) : Prop :=
  exists v, validateThemeData themeData = Ok v /\ truthy v = true.

Lemma passes_validates (themeData : value) :
  passes themeData <-> validates themeData = true.
Proof.
  destruct (validateThemeData_validates themeData) as (v & Hv & Ht).
  unfold passes. split.
  - intros (v' & Hv' & Ht'). congruence.
  - intros H. exists v. split; [done|congruence].
Qed.

Lemma lookup_assign_eq (k : string) (v : value) (props : list (string * value)) :
  lookup_prop k (assign_prop k v props) = v.
Proof.
  induction props as [|[k' v'] props IH]; simpl.
  - by rewrite String.eqb_refl.
  - destruct (String.eqb_spec k' k) as [->|Hne]; simpl.
    + by rewrite String.eqb_refl.
    + destruct (String.eqb_spec k' k); [done|exact IH].
Qed.

Lemma lookup_assign_ne (k k' : string) (v : value) (props : list (string * value)) :
  k <> k' -> lookup_prop k' (assign_prop k v props) = lookup_prop k' props.
Proof.
  intros Hne. induction props as [|[k0 v0] props IH]; simpl.
  - destruct (String.eqb_spec k k'); [done|reflexivity].
  - destruct (String.eqb_spec k0 k) as [->|Hk]; simpl.
    + destruct (String.eqb_spec k k'); [done|reflexivity].
    + destruct (String.eqb_spec k0 k'); [reflexivity|exact IH].
Qed.

(** What [normalizeThemeData] leaves of an object literal: first the
    name fallback, then the success flag. *)
Definition named (props : list (string * value)) : list (string * value) :=
  if negb (truthy (lookup_prop "theme_name" props))
     && truthy (lookup_prop "name" props)
  then assign_prop "theme_name" (lookup_prop "name" props) props
  else props.

Definition normalized (props : list (string * value)) : list (string * value) :=
  match lookup_prop "success" (named props) with
  | Undefined => assign_prop "success" (Bool true) (named props)
  | _ => named props
  end.

Lemma normalizeThemeData_obj (props : list (string * value)) :
  normalizeThemeData (Obj props) = Ok (Obj (normalized props)).
Proof.
  unfold normalizeThemeData, normalized, named. cbn [get bind].
  destruct (negb _ && _); cbn [set get bind];
    match goal with |- context [lookup_prop "success" ?p] =>
      destruct (lookup_prop "success" p) end; reflexivity.
Qed.

Lemma named_other (props : list (string * value)) (k : string) :
  k <> "theme_name" -> lookup_prop k (named props) = lookup_prop k props.
Proof.
  intros Hk. unfold named. destruct (negb _ && _); [|done].
  by apply lookup_assign_ne.
Qed.

Lemma named_theme_name (props : list (string * value)) :
  lookup_prop "theme_name" (named props)
  = if truthy (lookup_prop "theme_name" props)
    then lookup_prop "theme_name" props
    else if truthy (lookup_prop "name" props)
         then lookup_prop "name" props
         else lookup_prop "theme_name" props.
Proof.
  unfold named.
  destruct (truthy (lookup_prop "theme_name" props)); cbn [negb andb]; [done|].
  destruct (truthy (lookup_prop "name" props)); [|done].
  apply lookup_assign_eq.
Qed.

Lemma normalized_other (props : list (string * value)) (k : string) :
  k <> "theme_name" -> k <> "success" ->
  lookup_prop k (normalized props) = lookup_prop k props.
Proof.
  intros H1 H2. unfold normalized. rewrite <- (named_other props k H1).
  destruct (lookup_prop "success" (named props)); try reflexivity.
  by apply lookup_assign_ne.
Qed.

Lemma normalized_theme_name (props : list (string * value)) :
  lookup_prop "theme_name" (normalized props)
  = if truthy (lookup_prop "theme_name" props)
    then lookup_prop "theme_name" props
    else if truthy (lookup_prop "name" props)
         then lookup_prop "name" props
         else lookup_prop "theme_name" props.
Proof.
  rewrite <- named_theme_name. unfold normalized.
  destruct (lookup_prop "success" (named props)); try reflexivity.
  by apply lookup_assign_ne.
Qed.

Lemma normalized_success (props : list (string * value)) :
  lookup_prop "success" (normalized props)
  = match lookup_prop "success" props with
    | Undefined => Bool true
    | s => s
    end.
Proof.
  unfold normalized. rewrite <- (named_other props "success") by done.
  destruct (lookup_prop "success" (named props)) eqn:E; rewrite ?E; try reflexivity.
  apply lookup_assign_eq.
Qed.

Lemma validates_obj (themeData : value) :
  validates themeData = true -> exists props, themeData = Obj props.
Proof. destruct themeData; try discriminate. eauto. Qed.

Lemma validates_normalized (props : list (string * value)) :
  validates (Obj props) = true ->
  validates (Obj (normalized props)) = true
  /\ truthy (lookup_prop "theme_name" (normalized props)) = true.
Proof.
  unfold validates. rewrite normalized_theme_name.
  rewrite !(normalized_other props) by done.
  intros H. repeat (apply andb_prop in H as [H ?]).
  destruct (truthy (lookup_prop "theme_name" props)) eqn:Htn.
  - cbv iota. rewrite Htn. cbn [orb]. split; [|done].
    repeat (apply andb_true_intro; split); done.
  - cbn [orb] in H. rewrite H. cbv iota. rewrite H. cbn [orb]. split; [|done].
    repeat (apply andb_true_intro; split); done.
Qed.

(** One callback: the registry gains the normalised data under the
    theme's name exactly when the data validates. *)
Lemma loadTheme_registry (st : LoaderState) (themeName : string) (themeData : value) :
  THEME_REGISTRY (loadTheme st (themeName, themeData))
  = match themeData with
    | Obj props =>
        if validates themeData
        then <[themeName := Obj (normalized props)]> (THEME_REGISTRY st)
        else THEME_REGISTRY st
    | _ => THEME_REGISTRY st
    end.
Proof.
  unfold loadTheme.
  destruct (validateThemeData_validates themeData) as (v & -> & Ht).
  cbn [bind]. rewrite Ht.
  destruct (validates themeData) eqn:Hv.
  - destruct (validates_obj _ Hv) as [props ->].
    by rewrite normalizeThemeData_obj.
  - by destruct themeData.
Qed.

Lemma loadThemes_entries (imports : list (string * value)) (st : LoaderState) :
  (forall name theme,
     THEME_REGISTRY (fold_left loadTheme imports st) !! name = Some theme ->
     THEME_REGISTRY st !! name = Some theme
     \/ exists props, (name, Obj props) ∈ imports
          /\ validates (Obj props) = true /\ theme = Obj (normalized props))
  /\ (forall name,
        (forall data, (name, data) ∈ imports -> validates data = false) ->
        THEME_REGISTRY (fold_left loadTheme imports st) !! name
        = THEME_REGISTRY st !! name).
Proof.
  revert st. induction imports as [|[n d] imports IH]; intros st; cbn [fold_left].
  - split; [by left|done].
  - destruct (IH (loadTheme st (n, d))) as [IH1 IH2]. split.
    + intros name theme H. destruct (IH1 _ _ H) as [Hst|(props & Hin & Hv & ->)].
      * rewrite loadTheme_registry in Hst.
        destruct d as [| | | | | |props|]; try by left.
        destruct (validates (Obj props)) eqn:Hv; [|by left].
        destruct (decide (n = name)) as [->|Hne].
        -- rewrite lookup_insert_eq in Hst. injection Hst as <-.
           right. exists props. split; [by left|done].
        -- rewrite lookup_insert_ne in Hst by done. by left.
      * right. exists props. split; [by right|done].
    + intros name Hno. rewrite IH2.
      * rewrite loadTheme_registry.
        destruct d as [| | | | | |props|]; try done.
        destruct (validates (Obj props)) eqn:Hv; [|done].
        destruct (decide (n = name)) as [->|Hne].
        -- rewrite (Hno (Obj props)) in Hv; [done|by left].
        -- by rewrite lookup_insert_ne.
      * intros data Hin. apply Hno. by right.
Qed.

(** C6 (amended).  Every theme that loadThemes inserts into the registry
    is the normalised form of imported data that passed validation; it
    passes validation itself: it is an object with a display_name and a
    cssVars holding the three groups theme, light and dark; its
    theme_name is present (the data's own, or else its name); and its
    success property is present: true when the data had none, otherwise
    the data's own value.  Data failing validation is never inserted. *)
Theorem loadThemes_inserts_valid (imports : list (string * value))
    (registry : gmap string value) :
  (forall name theme,
     THEME_REGISTRY (loadThemes imports registry) !! name = Some theme ->
     registry !! name = Some theme
     \/ exists data, (name, data) ∈ imports /\ passes data
          /\ normalizeThemeData data = Ok theme
          /\ passes theme
          /\ typeof_object theme = true
          /\ truthy (field theme "display_name") = true
          /\ truthy (field (field theme "cssVars") "theme") = true
          /\ truthy (field (field theme "cssVars") "light") = true
          /\ truthy (field (field theme "cssVars") "dark") = true
          /\ truthy (field theme "theme_name") = true
          /\ field theme "theme_name"
             = (if truthy (field data "theme_name")
                then field data "theme_name" else field data "name")
          /\ field theme "success"
             = match field data "success" with
               | Undefined => Bool true
               | s => s
               end)
  /\ (forall name,
        (forall data, (name, data) ∈ imports -> ~ passes data) ->
        THEME_REGISTRY (loadThemes imports registry) !! name = registry !! name).
Proof.
  unfold loadThemes.
  destruct (loadThemes_entries imports
              {| THEME_REGISTRY := registry; loadedCount := 0 |}) as [H1 H2].
  split.
  - intros name theme H. destruct (H1 _ _ H) as [Hold|(props & Hin & Hv & ->)];
      [by left|right].
    exists (Obj props). split; [done|]. split; [by apply passes_validates|].
    split; [apply normalizeThemeData_obj|].
    destruct (validates_normalized props Hv) as [Hv' Htn].
    split; [by apply passes_validates|]. split; [reflexivity|].
    unfold field at 1 3 5 7 8 9 10 11 12 13. cbn [get].
    rewrite !(normalized_other props) by done.
    rewrite normalized_success. split_and!; try done.
    + unfold validates in Hv. by repeat (apply andb_prop in Hv as [Hv ?]).
    + unfold validates in Hv. by repeat (apply andb_prop in Hv as [Hv ?]).
    + unfold validates in Hv. by repeat (apply andb_prop in Hv as [Hv ?]).
    + unfold validates in Hv. by repeat (apply andb_prop in Hv as [Hv ?]).
    + rewrite normalized_theme_name.
      destruct (truthy (lookup_prop "theme_name" props)) eqn:E; [done|].
      destruct (truthy (lookup_prop "name" props)) eqn:E'; [done|].
      unfold validates in Hv. rewrite E, E' in Hv. discriminate.
  - intros name Hno. apply H2. intros data Hin.
    destruct (validates data) eqn:Hv; [|done].
    exfalso. apply (Hno data Hin). by apply passes_validates.
Qed.

(** *** Concrete theme data *)

Definition groups : value :=
  Obj [ ("theme", Obj [ ("radius", Str "0.375rem") ]);
        ("light", Obj [ ("background", Str "oklch(1 0 0)") ]);
        ("dark", Obj [ ("background", Str "oklch(0.05 0 0)") ]) ].

(** A theme that names itself only by [name]. *)
Definition mono_json : value :=
  Obj [ ("name", Str "mono"); ("display_name", Str "Mono"); ("cssVars", groups) ].

(** A theme whose JSON carries [success: false]. *)
Definition failed_json : value :=
  Obj [ ("theme_name", Str "claude"); ("display_name", Str "Claude");
        ("cssVars", groups); ("success", Bool false) ].

(** Data without the dark group. *)
Definition broken_json : value :=
  Obj [ ("theme_name", Str "vercel"); ("display_name", Str "Vercel");
        ("cssVars", Obj [ ("theme", Obj []); ("light", Obj []) ]) ].

Example loadThemes_example :
  loadThemes [ ("mono", mono_json); ("vercel", broken_json) ] ∅
  = {| THEME_REGISTRY :=
         {[ "mono" := Obj [ ("name", Str "mono"); ("display_name", Str "Mono");
                            ("cssVars", groups); ("theme_name", Str "mono");
                            ("success", Bool true) ] ]};
       loadedCount := 1 |}.
Proof. vm_compute. reflexivity. Qed.

Example loadThemes_all_names :
  length (themeImports (fun _ => mono_json)) = 40
  /\ loadedCount (loadThemes (themeImports (fun _ => mono_json)) ∅) = 40.
Proof. split; vm_compute; reflexivity. Qed.

(** C6, as stated, fails on the code: data carrying [success: false]
    passes validation and is inserted with success still false. *)
Lemma theme_keeps_success_false :
  validateThemeData failed_json = Ok (Obj [ ("background", Str "oklch(0.05 0 0)") ])
  /\ THEME_REGISTRY (loadThemes [ ("claude", failed_json) ] ∅) !! "claude"
     = Some failed_json
  /\ field failed_json "success" = Bool false
  /\ field failed_json "success" <> Bool true.
Proof.
  split; [reflexivity|]. split; [vm_compute; reflexivity|].
  split; [reflexivity|discriminate].
Qed.

End ThemeLoaderFacts.

(** ** The editor's slug *)

Module EditorFacts.
Import JS JSFacts Editor.

(** A lower-case ASCII letter, a digit or a hyphen. *)
Definition slug_char (c : ascii) : bool := is_az09 c || Ascii.eqb c hyphen.

Fixpoint all_chars (P : ascii -> bool) (s : string) : bool :=
  match s with
  | EmptyString => true
  | String c rest => P c && all_chars P rest
  end.

Fixpoint ends_with_hyphen (s : string) : bool :=
  match s with
  | EmptyString => false
  | String c EmptyString => Ascii.eqb c hyphen
  | String _ rest => ends_with_hyphen rest
  end.

(** The invariant of the first replacement: only slug characters, no two
    hyphens in a row, and no leading hyphen when one came just before. *)
Fixpoint tidy (after_hyphen : bool) (s : string) : bool :=
  match s with
  | EmptyString => true
  | String c rest =>
      if is_az09 c then tidy false rest
      else Ascii.eqb c hyphen && negb after_hyphen && tidy true rest
  end.

Lemma hyphen_not_az09 : is_az09 hyphen = false.
Proof. reflexivity. Qed.

Lemma replace_runs_tidy (in_run : bool) (s : string) :
  tidy in_run (replace_runs in_run s) = true.
Proof.
  revert in_run. induction s as [|c s IH]; intros in_run; [reflexivity|].
  cbn [replace_runs]. destruct (is_az09 c) eqn:Hc.
  - cbn [tidy]. rewrite Hc. apply IH.
  - destruct in_run; [apply IH|].
    cbn [tidy]. rewrite hyphen_not_az09, Ascii.eqb_refl. apply IH.
Qed.

Lemma tidy_weaken (b : bool) (s : string) : tidy b s = true -> tidy false s = true.
Proof.
  destruct s as [|c s]; [done|]. cbn [tidy].
  destruct (is_az09 c); [done|]. destruct b; [|done].
  rewrite andb_false_r. discriminate.
Qed.

Lemma tidy_all_chars (b : bool) (s : string) :
  tidy b s = true -> all_chars slug_char s = true.
Proof.
  revert b. induction s as [|c s IH]; intros b; [done|].
  cbn [tidy all_chars]. unfold slug_char.
  destruct (is_az09 c); cbn [orb andb]; [apply IH|].
  intros H. apply andb_prop in H as [H1 H2]. apply andb_prop in H1 as [-> _].
  cbn [andb]. by apply (IH true).
Qed.

Lemma tidy_no_double_hyphen (b : bool) (s : string) :
  tidy b s = true -> includes s "--" = false.
Proof.
  revert b. induction s as [|c s IH]; intros b; [done|].
  cbn [tidy includes]. intros H.
  assert (String.prefix "--" (String c s) = false) as ->.
  { cbn [String.prefix]. destruct (ascii_dec "-"%char c) as [<-|]; [|done].
    destruct s as [|d s]; [done|]. cbn [String.prefix].
    destruct (ascii_dec "-"%char d) as [<-|]; [|done].
    change "-"%char with hyphen in H.
    rewrite hyphen_not_az09 in H. cbn [tidy] in H.
    rewrite hyphen_not_az09, Ascii.eqb_refl in H. cbn [negb andb] in H.
    by rewrite andb_false_r in H. }
  destruct (is_az09 c); [by apply (IH false)|].
  apply andb_prop in H as [_ H]. by apply (IH true).
Qed.

Lemma tidy_no_leading_hyphen (s rest : string) :
  tidy true s = true -> s <> String hyphen rest.
Proof.
  intros H ->. cbn [tidy] in H. rewrite hyphen_not_az09 in H.
  by rewrite andb_false_r in H.
Qed.

Lemma drop_final_hyphen_tidy (b : bool) (s : string) :
  tidy b s = true -> tidy b (drop_final_hyphen s) = true.
Proof.
  revert b. induction s as [|c s IH]; intros b; [done|].
  cbn [drop_final_hyphen]. destruct s as [|d s].
  - destruct (Ascii.eqb c hyphen); done.
  - cbn [tidy]. destruct (is_az09 c); [apply IH|].
    intros H. apply andb_prop in H as [-> H]. by apply (IH true).
Qed.

Lemma drop_final_hyphen_end (b : bool) (s : string) :
  tidy b s = true -> ends_with_hyphen (drop_final_hyphen s) = false.
Proof.
  revert b. induction s as [|c s IH]; intros b; [done|].
  cbn [drop_final_hyphen]. destruct s as [|d s].
  - intros _. destruct (Ascii.eqb c hyphen) eqn:Hc; [done|].
    cbn [ends_with_hyphen]. exact Hc.
  - intros H.
    assert (tidy (negb (is_az09 c)) (String d s) = true
            /\ (is_az09 c = false -> Ascii.eqb c hyphen = true)) as [Hrest Hc].
    { cbn [tidy] in H. destruct (is_az09 c); [done|].
      apply andb_prop in H as [H1 H2]. apply andb_prop in H1 as [H1 _]. done. }
    specialize (IH _ Hrest).
    change (ends_with_hyphen (String c (drop_final_hyphen (String d s))) = false).
    destruct (drop_final_hyphen (String d s)) as [|e r] eqn:Hd; [|exact IH].
    cbn. destruct (is_az09 c) eqn:Hz.
    + destruct (Ascii.eqb_spec c hyphen) as [->|]; [|done].
      by rewrite hyphen_not_az09 in Hz.
    + (* a hyphen before a string that shrinks to nothing: that string was
         a lone hyphen, which [tidy true] excludes *)
      exfalso. cbn [negb] in Hrest. clear -Hrest Hd.
      cbn [drop_final_hyphen] in Hd. destruct s as [|e s].
      * destruct (Ascii.eqb d hyphen) eqn:E; [|discriminate].
        apply Ascii.eqb_eq in E. rewrite E in Hrest.
        cbn [tidy] in Hrest. rewrite hyphen_not_az09 in Hrest.
        by rewrite andb_false_r in Hrest.
      * discriminate.
Qed.

Lemma drop_final_hyphen_fixed (s : string) :
  ends_with_hyphen s = false -> drop_final_hyphen s = s.
Proof.
  induction s as [|c s IH]; [done|]. cbn [drop_final_hyphen ends_with_hyphen].
  destruct s as [|d s]; [by intros ->|]. intros H. by rewrite IH.
Qed.

Lemma ends_with_hyphen_app (pre : string) :
  ends_with_hyphen (pre +:+ "-") = true.
Proof.
  induction pre as [|c pre IH]; [reflexivity|].
  change (ends_with_hyphen (String c (pre +:+ "-")) = true).
  destruct (pre +:+ "-") eqn:E; [by destruct pre|exact IH].
Qed.

Lemma lower_char_slug (c : ascii) : slug_char c = true -> lower_char c = c.
Proof.
  destruct c as [[] [] [] [] [] [] [] []]; vm_compute; intros H;
    first [reflexivity | discriminate H].
Qed.

Lemma toLowerCase_fixed (s : string) :
  all_chars slug_char s = true -> toLowerCase s = s.
Proof.
  induction s as [|c s IH]; [done|]. cbn [all_chars toLowerCase].
  intros H. apply andb_prop in H as [Hc Hs].
  by rewrite (lower_char_slug c Hc), IH.
Qed.

Lemma replace_runs_fixed (b : bool) (s : string) :
  tidy b s = true -> replace_runs b s = s.
Proof.
  revert b. induction s as [|c s IH]; intros b; [done|].
  cbn [tidy replace_runs]. destruct (is_az09 c).
  - intros H. by rewrite IH.
  - intros H. apply andb_prop in H as [H Hs]. apply andb_prop in H as [Hc Hb].
    apply Ascii.eqb_eq in Hc as ->. destruct b; [discriminate|].
    by rewrite IH.
Qed.

Lemma strip_edges_tidy (s : string) :
  tidy false s = true ->
  tidy true (strip_edges s) = true /\ ends_with_hyphen (strip_edges s) = false.
Proof.
  destruct s as [|c s]; [done|]. intros H. unfold strip_edges.
  destruct (Ascii.eqb c hyphen) eqn:Hc.
  - apply Ascii.eqb_eq in Hc as ->. cbn [tidy] in H.
    rewrite hyphen_not_az09 in H. apply andb_prop in H as [_ H].
    split; [by apply drop_final_hyphen_tidy|by apply (drop_final_hyphen_end true)].
  - assert (tidy true (String c s) = true) as H'.
    { cbn [tidy] in *. destruct (is_az09 c); [done|]. by rewrite Hc in H. }
    split; [by apply drop_final_hyphen_tidy|by apply (drop_final_hyphen_end true)].
Qed.

Lemma strip_edges_fixed (s : string) :
  tidy true s = true -> ends_with_hyphen s = false -> strip_edges s = s.
Proof.
  destruct s as [|c s]; [done|]. intros H He. unfold strip_edges.
  destruct (Ascii.eqb c hyphen) eqn:Hc.
  - apply Ascii.eqb_eq in Hc as ->. cbn [tidy] in H.
    rewrite hyphen_not_az09 in H. by rewrite andb_false_r in H.
  - by apply drop_final_hyphen_fixed.
Qed.

Lemma generateSlug_tidy (title : string) :
  tidy true (generateSlug title) = true
  /\ ends_with_hyphen (generateSlug title) = false.
Proof. apply strip_edges_tidy, replace_runs_tidy. Qed.

(** C10.  For every input string the slug holds only lower-case ASCII
    letters, digits and hyphens, never two hyphens in a row, and neither
    begins nor ends with a hyphen; and generateSlug is idempotent. *)
Theorem generateSlug_wellformed (title : string) :
  all_chars slug_char (generateSlug title) = true
  /\ (forall pre post, generateSlug title <> pre +:+ "--" +:+ post)
  /\ (forall rest, generateSlug title <> String "-" rest)
  /\ (forall pre, generateSlug title <> pre +:+ "-")
  /\ generateSlug (generateSlug title) = generateSlug title.
Proof.
  destruct (generateSlug_tidy title) as [Ht He].
  split; [by apply (tidy_all_chars true)|].
  split.
  { intros pre post Heq.
    pose proof (tidy_no_double_hyphen _ _ Ht) as Hno.
    assert (includes (generateSlug title) "--" = true) as Hyes
      by (apply includes_spec; eauto).
    congruence. }
  split; [intros rest; by apply tidy_no_leading_hyphen|].
  split.
  { intros pre Heq. rewrite Heq, ends_with_hyphen_app in He. discriminate. }
  unfold generateSlug at 1.
  rewrite toLowerCase_fixed by (by apply (tidy_all_chars true)).
  rewrite replace_runs_fixed by (by apply (tidy_weaken true)).
  by apply strip_edges_fixed.
Qed.

Example slug_of_title : generateSlug "Hello, World!" = "hello-world".
Proof. reflexivity. Qed.

Example slug_of_padded_title : generateSlug "  --My 2nd Post--  " = "my-2nd-post".
Proof. reflexivity. Qed.

Example slug_of_punctuation : generateSlug "?!" = EmptyString.
Proof. reflexivity. Qed.

Example slug_of_single_edges : generateSlug "-a-" = "a".
Proof. reflexivity. Qed.

End EditorFacts.

(** ** More on the static-asset server *)

Module AssetServerMore.
Import JS JSFacts AssetServer AssetServerFacts.

(** [s] with every occurrence of the character [c] replaced by [d]. *)
Fixpoint replace_char (c d : ascii) (s : string) : string :=
  match s with
  | EmptyString => EmptyString
  | String a rest =>
      String (if Ascii.eqb a c then d else a) (replace_char c d rest)
  end.

Fixpoint has_char (c : ascii) (s : string) : bool :=
  match s with
  | EmptyString => false
  | String a rest => Ascii.eqb a c || has_char c rest
  end.

Lemma split_nonempty (c : ascii) (s : string) : split c s <> [].
Proof.
  destruct s as [|a s]; cbn [split]; [done|].
  destruct (Ascii.eqb a c); [done|]. by destruct (split c s).
Qed.

Lemma concat_cons (sep w : string) (ws : list string) :
  ws <> [] -> String.concat sep (w :: ws) = w +:+ sep +:+ String.concat sep ws.
Proof. by destruct ws. Qed.

(** Splitting at a character and joining with another replaces the one
    by the other. *)
Lemma join_split (c d : ascii) (s : string) :
  join (String d EmptyString) (split c s) = replace_char c d s.
Proof.
  unfold join. induction s as [|a s IH]; [reflexivity|].
  cbn [split replace_char]. destruct (Ascii.eqb a c).
  - rewrite concat_cons by apply split_nonempty. by rewrite IH.
  - rewrite <- IH. pose proof (split_nonempty c s) as Hne.
    destruct (split c s) as [|w ws]; [done|].
    destruct ws as [|w' ws]; reflexivity.
Qed.

Lemma replace_char_gone (c d : ascii) (s : string) :
  c <> d -> has_char c (replace_char c d s) = false.
Proof.
  intros Hne. induction s as [|a s IH]; [reflexivity|].
  cbn [replace_char has_char]. rewrite IH, orb_false_r.
  destruct (Ascii.eqb_spec a c) as [->|Ha].
  - apply Ascii.eqb_neq. congruence.
  - by apply Ascii.eqb_neq.
Qed.

Lemma route_of_replace (relativePath : string) :
  route_of relativePath = String "/" (replace_char "\" "/" relativePath).
Proof. unfold route_of. by rewrite (join_split "\" "/"). Qed.

Section More.
Variable rt : Runtime.

(** X2.  Every route a successful start-up registers is a slash followed
    by a listed relative path with each backslash replaced by a slash; so
    it starts with a slash and holds no backslash. *)
Theorem registered_routes_normalised (assets : gmap string Asset) (route : string) :
  loadStaticAssets rt ∅ = Ok assets ->
  is_Some (assets !! route) ->
  exists files p, readdir rt CLIENT_DIR = Some files /\ p ∈ files
    /\ route = String "/" (replace_char "\" "/" p)
    /\ has_char "\" route = false.
Proof.
  intros Hload [asset Hl].
  destruct (loadStaticAssets_loaded rt _ Hload) as (files & Hdir & Hall).
  assert (exists p, p ∈ files /\ route = route_of p) as (p & Hp & ->).
  { destruct (Hall _ _ Hl) as [p c ? ? ? ? ?|p ? ? ? ?]; eauto. }
  exists files, p. split; [done|]. split; [done|].
  rewrite route_of_replace. split; [done|].
  cbn [has_char]. by rewrite replace_char_gone.
Qed.


Lemma loadAssets_app (l1 l2 : list string) (m : gmap string Asset) :
  loadAssets rt (l1 ++ l2) m
  = await m1 <- loadAssets rt l1 m in loadAssets rt l2 m1.
Proof.
  revert m. induction l1 as [|p l1 IH]; intros m; [reflexivity|].
  cbn [app loadAssets]. destruct (loadAsset rt p m); [apply IH|reflexivity].
Qed.

Lemma loadAssets_untouched (files : list string) (m m' : gmap string Asset)
    (route : string) :
  loadAssets rt files m = Ok m' ->
  (forall q, q ∈ files -> route_of q = route -> entry_of rt q = Ok None) ->
  m' !! route = m !! route.
Proof.
  revert m. induction files as [|q files IH]; intros m; cbn [loadAssets].
  - by intros [= <-].
  - rewrite loadAsset_entry. intros Hload Hskip.
    destruct (entry_of rt q) as [[a|]|e] eqn:He; cbn [bind] in Hload;
      [| |discriminate].
    + rewrite (IH _ Hload) by (intros; apply Hskip; [by right|done]).
      apply lookup_insert_ne. intros Hr.
      specialize (Hskip q (ltac:(by left)) Hr). congruence.
    + apply (IH _ Hload). intros; apply Hskip; [by right|done].
Qed.

(** X3.  When several listed paths normalise to the same route, the last
    of them that is not skipped decides the entry: a path's entry stays
    registered exactly as long as every later path with its route is
    skipped. *)
Theorem last_listed_path_wins (before after : list string) (p : string)
    (asset : Asset) (assets : gmap string Asset) :
  readdir rt CLIENT_DIR = Some (before ++ p :: after) ->
  loadStaticAssets rt ∅ = Ok assets ->
  entry_of rt p = Ok (Some asset) ->
  (forall q, q ∈ after -> route_of q = route_of p -> entry_of rt q = Ok None) ->
  assets !! route_of p = Some asset.
Proof.
  intros Hdir Hload Hp Hafter. unfold loadStaticAssets in Hload.
  rewrite Hdir, loadAssets_app in Hload.
  destruct (loadAssets rt before ∅) as [m1|e]; [|discriminate].
  cbn [bind loadAssets] in Hload. rewrite loadAsset_entry, Hp in Hload.
  cbn [bind] in Hload.
  rewrite (loadAssets_untouched _ _ _ _ Hload Hafter).
  apply lookup_insert_eq.
Qed.



End More.

(** X4.  Whatever the asset map, the handler answers with status 200 or
    304, and with 304 only when the request's If-None-Match header is
    present and equals the non-empty ETag of the asset registered under
    its pathname. *)
Theorem fetch_status (assets : gmap string Asset) (indexHtml : string)
    (request : Request) :
  status (fetch assets indexHtml request) = 200%Z
  \/ (status (fetch assets indexHtml request) = 304%Z
      /\ exists asset tag,
           assets !! pathname request = Some asset
           /\ etag asset = Some tag /\ tag <> EmptyString
           /\ req_headers request !! "if-none-match" = Some tag).
Proof.
  unfold fetch, serveAsset.
  destruct (assets !! pathname request) as [asset|]; [|by left].
  destruct (ENABLE_ETAGS && truthy_opt (etag asset) && bool_decide _) eqn:Hc.
  - right. split; [reflexivity|].
    apply andb_prop in Hc as [Ht Heq]. cbn [ENABLE_ETAGS andb] in Ht.
    apply bool_decide_eq_true_1 in Heq.
    destruct (etag asset) as [tag|] eqn:He; [|discriminate].
    exists asset, tag. split; [reflexivity|]. split; [exact He|].
    split; [by apply truthy_string_nonempty|exact Heq].
  - left. destruct (content asset);
      [destruct (gzipped asset); [destruct (includes _ "gzip")|]|
       destruct (truthy_opt (path asset))]; reflexivity.
Qed.

End AssetServerMore.

Module AssetServerMoreExamples.
Import JS JSFacts AssetServer AssetServerFacts AssetServerExamples AssetServerMore.

(** Witness of [registered_routes_normalised]: the script of the demo. *)
Lemma registered_routes_normalised_witness :
  exists files p, readdir demo CLIENT_DIR = Some files /\ p ∈ files
    /\ "/assets/app.js" = String "/" (replace_char "\" "/" p)
    /\ has_char "\" "/assets/app.js" = false.
Proof.
  exact (registered_routes_normalised demo demo_assets "/assets/app.js"
           demo_loads (ex_intro _ app_asset demo_app)).
Defined.


(** A POSIX directory in which a file named with a backslash and a file
    in a sub-directory normalise to the same route. *)
Definition clash_disk (p : string) : BunFile :=
  if String.eqb p "a\b.txt" then present "text/plain" [x31]
  else if String.eqb p "a/b.txt" then present "text/plain" [x32]
  else absent.

Definition clash : Runtime :=
  runtime_on (Some [ "a\b.txt"; "a/b.txt" ]) clash_disk.

Definition clash_assets : gmap string Asset :=
  match loadStaticAssets clash ∅ with
  | Ok assets => assets
  | Throw _ => ∅
  end.

Lemma clash_loads : loadStaticAssets clash ∅ = Ok clash_assets.
Proof. vm_compute. reflexivity. Qed.

(** Witness of [last_listed_path_wins]: the second file replaces the
    first. *)
Lemma last_listed_path_wins_witness :
  clash_assets !! route_of "a/b.txt" = Some (memory_entry clash "text/plain" [x32]).
Proof.
  apply (last_listed_path_wins clash [ "a\b.txt" ] [] "a/b.txt"
           (memory_entry clash "text/plain" [x32]) clash_assets eq_refl clash_loads eq_refl).
  intros q Hq. by apply elem_of_nil in Hq.
Defined.

Example clash_first_file_lost :
  content <$> (clash_assets !! "/a/b.txt") = Some (Some [x32])
  /\ size clash_assets = 1.
Proof. split; vm_compute; reflexivity. Qed.



End AssetServerMoreExamples.

(** ** More on the cookie reader and the blog API client *)

Module CookieFacts.
Import JS JSFacts BlogApi.

Lemma substring_0_app (p s : string) :
  String.substring 0 (String.length p) (p +:+ s) = p.
Proof.
  induction p as [|c p IH]; [by destruct s|].
  change (String c (String.substring 0 (String.length p) (p +:+ s)) = String c p).
  by rewrite IH.
Qed.

Lemma substring_all (s : string) : String.substring 0 (String.length s) s = s.
Proof.
  induction s as [|c s IH]; [reflexivity|].
  change (String c (String.substring 0 (String.length s) s) = String c s).
  by rewrite IH.
Qed.

Lemma substring_from_app (p s : string) :
  substring_from (String.length p) (p +:+ s) = s.
Proof.
  unfold substring_from. induction p as [|c p IH].
  - cbn. rewrite Nat.sub_0_r. apply substring_all.
  - cbn [String.append String.length String.substring]. exact IH.
Qed.

Lemma length_app (p s : string) :
  String.length (p +:+ s) = String.length p + String.length s.
Proof.
  induction p as [|c p IH]; [reflexivity|].
  change (S (String.length (p +:+ s)) = S (String.length p + String.length s)).
  by rewrite IH.
Qed.

Lemma app_assoc_string (a b c : string) : (a +:+ b) +:+ c = a +:+ b +:+ c.
Proof.
  induction a as [|x a IH]; [reflexivity|].
  change (String x ((a +:+ b) +:+ c) = String x (a +:+ b +:+ c)).
  by rewrite IH.
Qed.

(** The test [cookie.substring(0, name.length + 1) === name + '='] is the
    prefix test. *)
Lemma name_test_prefix (name cookie : string) :
  String.eqb (String.substring 0 (String.length name + 1) cookie) (name +:+ "=")
  = String.prefix (name +:+ "=") cookie.
Proof.
  assert (String.length name + 1 = String.length (name +:+ "=")) as ->
    by (rewrite length_app; reflexivity).
  destruct (String.prefix (name +:+ "=") cookie) eqn:Hp.
  - apply String.eqb_eq. by apply prefix_correct.
  - apply String.eqb_neq. intros H. apply prefix_correct in H. congruence.
Qed.

(** No [;] in a string. *)
Fixpoint semicolon_free (s : string) : bool :=
  match s with
  | EmptyString => true
  | String c rest => negb (Ascii.eqb c ";") && semicolon_free rest
  end.

Lemma split_semicolon_free (s : string) :
  semicolon_free s = true -> split ";" s = [s].
Proof.
  induction s as [|c s IH]; [reflexivity|]. cbn [semicolon_free split].
  intros H. apply andb_prop in H as [Hc Hs]. apply negb_true_iff in Hc.
  rewrite Hc, (IH Hs). reflexivity.
Qed.

Lemma split_app_semicolon (w rest : string) :
  semicolon_free w = true ->
  split ";" (w +:+ String ";" rest) = w :: split ";" rest.
Proof.
  induction w as [|c w IH]; [reflexivity|]. cbn [semicolon_free].
  intros H. apply andb_prop in H as [Hc Hw]. apply negb_true_iff in Hc.
  change (String c w +:+ String ";" rest) with (String c (w +:+ String ";" rest)).
  cbn [split]. rewrite Hc, (IH Hw). reflexivity.
Qed.

(** Splitting undoes joining when no part holds the separator. *)
Lemma split_join (parts : list string) :
  parts <> [] -> Forall (fun w => semicolon_free w = true) parts ->
  split ";" (join ";" parts) = parts.
Proof.
  unfold join. induction parts as [|w parts IH]; [done|]. intros _ Hall.
  apply Forall_cons in Hall as [Hw Hall].
  destruct parts as [|w' parts]; [by apply split_semicolon_free|].
  change (String.concat ";" (w :: w' :: parts))
    with (w +:+ String ";" (String.concat ";" (w' :: parts))).
  rewrite split_app_semicolon by done. by rewrite IH.
Qed.

Section Cookies.
Variable env : Browser.

Definition decoded (v : string) : result URIError (option string) :=
  match decodeURIComponent env v with
  | Some x => Ok (Some x)
  | None => Throw MalformedURI
  end.

Lemma findCookie_first (name value c : string) (before after : list string) :
  Forall (fun b => String.prefix (name +:+ "=") (trim b) = false) before ->
  trim c = name +:+ "=" +:+ value ->
  findCookie env name (before ++ c :: after) = decoded value.
Proof.
  intros Hbefore Hc. induction Hbefore as [|b before Hb _ IH]; cbn [app findCookie].
  - rewrite name_test_prefix, Hc.
    assert (String.prefix (name +:+ "=") (name +:+ "=" +:+ value) = true) as ->.
    { apply prefix_app. exists value. by rewrite app_assoc_string. }
    assert (String.length name + 1 = String.length (name +:+ "=")) as ->
      by (rewrite length_app; reflexivity).
    rewrite <- app_assoc_string, substring_from_app. reflexivity.
  - by rewrite name_test_prefix, Hb.
Qed.

Lemma findCookie_none (name : string) (cookies : list string) :
  Forall (fun b => String.prefix (name +:+ "=") (trim b) = false) cookies ->
  findCookie env name cookies = Ok None.
Proof.
  induction 1 as [|b cookies Hb _ IH]; cbn [findCookie]; [reflexivity|].
  by rewrite name_test_prefix, Hb.
Qed.

Lemma join_nonempty (parts : list string) (c : string) :
  c ∈ parts -> c <> EmptyString -> join ";" parts <> EmptyString.
Proof.
  unfold join. induction parts as [|w parts IH]; intros Hin Hc.
  - by apply elem_of_nil in Hin.
  - destruct parts as [|w' parts].
    + apply list_elem_of_singleton in Hin as ->. exact Hc.
    + change (String.concat ";" (w :: w' :: parts))
        with (w +:+ String ";" (String.concat ";" (w' :: parts))).
      by destruct w.
Qed.

(** X6.  In a cookie string made of parts joined by semicolons, getCookie
    returns the decoded value of the first part that, once trimmed,
    starts with the name and an equals sign; parts after it are not
    looked at, and decoding throws only for that part's value. *)
Theorem getCookie_first_match (name value c : string) (before after : list string) :
  Forall (fun w => semicolon_free w = true) (before ++ c :: after) ->
  Forall (fun b => String.prefix (name +:+ "=") (trim b) = false) before ->
  trim c = name +:+ "=" +:+ value ->
  getCookie env (join ";" (before ++ c :: after)) name
  = match decodeURIComponent env value with
    | Some v => Ok (Some v)
    | None => Throw MalformedURI
    end.
Proof.
  intros Hfree Hbefore Hc. unfold getCookie.
  assert (join ";" (before ++ c :: after) <> EmptyString) as Hne.
  { apply (join_nonempty _ c); [set_solver|].
    intros ->. cbn in Hc. by destruct name. }
  destruct (join ";" (before ++ c :: after)) as [|a s] eqn:Hdoc; [done|].
  cbn [truthy_string String.eqb andb negb]. rewrite <- Hdoc.
  rewrite split_join; [|by destruct before|done].
  by apply findCookie_first.
Qed.

(** X7.  When no part of the cookie string, once trimmed, starts with the
    name and an equals sign, getCookie returns null; it does not throw,
    whatever malformed escapes the other cookies hold. *)
Theorem getCookie_absent (document_cookie name : string) :
  Forall (fun b => String.prefix (name +:+ "=") (trim b) = false)
         (split ";" document_cookie) ->
  getCookie env document_cookie name = Ok None.
Proof.
  intros H. unfold getCookie.
  destruct (truthy_string document_cookie && _); [|reflexivity].
  by apply findCookie_none.
Qed.

End Cookies.

(** Witness of [getCookie_first_match]: the demo cookie string. *)
Lemma getCookie_first_match_witness :
  getCookie BlogApiFacts.demo_browser
    (join ";" ([ "theme=dark" ] ++ " django_csrftoken=abc123" :: [ " django_sessionid=xyz" ]))
    "django_csrftoken"
  = Ok (Some "abc123").
Proof.
  apply (getCookie_first_match BlogApiFacts.demo_browser "django_csrftoken" "abc123"
           " django_csrftoken=abc123" [ "theme=dark" ] [ " django_sessionid=xyz" ]).
  - repeat constructor.
  - repeat constructor.
  - reflexivity.
Defined.

(** Witness of [getCookie_absent]: a cookie whose name only extends the
    wanted one, beside a cookie with a malformed escape. *)
Lemma getCookie_absent_witness :
  getCookie BlogApiFacts.demo_browser
    "django_csrftoken_old=abc; broken=%E0%A4%A" "django_csrftoken" = Ok None.
Proof.
  apply (getCookie_absent BlogApiFacts.demo_browser). repeat constructor.
Defined.

End CookieFacts.

Module PostPayloadFacts.
Import JS JSFacts BlogApi BlogApiFacts.

Section Payload.
Variable env : Browser.

Definition is_upload_key (k : string) : bool :=
  String.eqb k "featured_image" || String.eqb k "og_image".

Definition is_undefined (v : value) : bool :=
  match v with Undefined => true | _ => false end.

Definition text_of (v : value) : FormValue :=
  FormText (if Array_isArray v then JSON_stringify env v else String_of env v).

Lemma field_entry (key k : string) (value : value) (fv : FormValue) :
  (k, fv) ∈
    (if negb (String.eqb key "featured_image") && negb (String.eqb key "og_image")
        && negb (match value with Undefined => true | _ => false end)
     then if Array_isArray value
          then [(key, FormText (JSON_stringify env value))]
          else [(key, FormText (String_of env value))]
     else [])
  <-> k = key /\ is_upload_key key = false /\ is_undefined value = false
      /\ fv = text_of value.
Proof.
  unfold is_upload_key, is_undefined, text_of.
  destruct (String.eqb key "featured_image"), (String.eqb key "og_image");
    cbn [negb andb orb];
    try (split; [intros H; by apply elem_of_nil in H|by intros (_ & ? & _)]).
  destruct value; cbn [negb Array_isArray];
    try (rewrite list_elem_of_singleton; split;
         [intros [= -> ->]; done | intros (-> & _ & _ & ->); done]).
  split; [intros H; by apply elem_of_nil in H|by intros (_ & _ & ? & _)].
Qed.

Lemma appendFields_spec (data keys : list (string * value)) (k : string) (fv : FormValue) :
  (k, fv) ∈ appendFields env data keys <->
  (exists v, (k, v) ∈ keys) /\ is_upload_key k = false
  /\ is_undefined (lookup_prop k data) = false
  /\ fv = text_of (lookup_prop k data).
Proof.
  induction keys as [|[k' v'] keys IH]; cbn [appendFields].
  - split; [intros H; by apply elem_of_nil in H|].
    intros [[v H] _]. by apply elem_of_nil in H.
  - rewrite elem_of_app, IH, field_entry. split.
    + intros [(-> & H)|([v Hv] & H)].
      * split; [exists v'; by left|done].
      * split; [exists v; by right|done].
    + intros ([v Hv] & H). apply elem_of_cons in Hv as [[= -> ->]|Hv].
      * by left.
      * right. split; [by exists v|done].
Qed.

Definition has_file (data : list (string * value)) : bool :=
  instanceof_File (lookup_prop "featured_image" data)
  || instanceof_File (lookup_prop "og_image" data).

(** The form a multipart post carries: the text fields, then the files. *)
Definition form_of (data : list (string * value)) : list (string * FormValue) :=
  appendFields env data data
  ++ (if instanceof_File (lookup_prop "featured_image" data)
      then [("featured_image_upload", FormFile (lookup_prop "featured_image" data))]
      else [])
  ++ (if instanceof_File (lookup_prop "og_image" data)
      then [("og_image_upload", FormFile (lookup_prop "og_image" data))]
      else []).

Lemma form_of_spec (data : list (string * value)) (k : string) (fv : FormValue) :
  (k, fv) ∈ form_of data
  <-> (k, fv) ∈ appendFields env data data
      \/ (instanceof_File (lookup_prop "featured_image" data) = true
          /\ k = "featured_image_upload"
          /\ fv = FormFile (lookup_prop "featured_image" data))
      \/ (instanceof_File (lookup_prop "og_image" data) = true
          /\ k = "og_image_upload"
          /\ fv = FormFile (lookup_prop "og_image" data)).
Proof.
  unfold form_of. rewrite !elem_of_app.
  destruct (instanceof_File (lookup_prop "featured_image" data)),
           (instanceof_File (lookup_prop "og_image" data));
    rewrite ?list_elem_of_singleton, ?elem_of_nil; split.
  all: intros [H|[H|H]]; try (by left); try done.
  all: try (injection H as -> ->; by eauto 6).
  all: try (destruct H as (? & -> & ->); by eauto 6).
  all: try (destruct H as (? & _); discriminate).
Qed.

Lemma postPayload_cases (document_cookie : string) (token : option string)
    (data : list (string * value)) :
  getCSRFToken env document_cookie = Ok token ->
  postPayload env document_cookie data
  = Ok (if has_file data
        then (FormBody (form_of data),
              {[ "X-CSRFToken" := default EmptyString token ]})
        else (StringBody (JSON_stringify env (Obj data)),
              {[ "X-CSRFToken" := default EmptyString token ]}
              ∪ {[ "Content-Type" := "application/json" ]})).
Proof.
  intros H. unfold postPayload, has_file, form_of.
  rewrite (getAuthHeaders_ok _ _ _ H).
  destruct (instanceof_File (lookup_prop "featured_image" data)),
           (instanceof_File (lookup_prop "og_image" data));
    cbn [orb bind]; rewrite <- ?app_assoc, ?app_nil_r; reflexivity.
Qed.

(** X8.  createPost and updatePost send a multipart form exactly when the
    featured image or the Open Graph image is a File; a multipart request
    carries the X-CSRFToken header and nothing else (no Content-Type, so
    the browser can set the boundary), and otherwise the body is the
    JSON text of the data with Content-Type application/json beside the
    token. *)
Theorem post_encoding (document_cookie slug : string) (token : option string)
    (data : list (string * value)) :
  getCSRFToken env document_cookie = Ok token ->
  exists create update,
    createPost env document_cookie data = Ok create
    /\ updatePost env document_cookie slug data = Ok update
    /\ body update = body create /\ headers update = headers create
    /\ headers create !! "X-CSRFToken" = Some (default EmptyString token)
    /\ (has_file data = true ->
        (exists fd, body create = Some (FormBody fd))
        /\ headers create !! "Content-Type" = None
        /\ size (headers create) = 1)
    /\ (has_file data = false ->
        body create = Some (StringBody (JSON_stringify env (Obj data)))
        /\ headers create !! "Content-Type" = Some "application/json"
        /\ size (headers create) = 2).
Proof.
  intros H. unfold createPost, updatePost.
  rewrite (postPayload_cases _ _ _ H). cbn [bind].
  eexists _, _. split; [reflexivity|]. split; [reflexivity|].
  cbn [body headers]. split; [reflexivity|]. split; [reflexivity|].
  destruct (has_file data); cbn [fst snd].
  - split; [by simplify_map_eq|]. split; [|done].
    intros _. split; [eauto|]. split; [by simplify_map_eq|].
    apply map_size_singleton.
  - split; [by simplify_map_eq|]. split; [done|].
    intros _. split; [reflexivity|]. split; [by simplify_map_eq|].
    rewrite <- insert_union_singleton_l, map_size_insert_None by by simplify_map_eq.
    by rewrite map_size_singleton.
Qed.

(** X9.  In a multipart post no form entry is keyed featured_image or
    og_image: a File travels only under featured_image_upload or
    og_image_upload, every other property with a defined value travels
    as text (arrays as JSON), and a property whose value is undefined is
    left out. *)
Theorem multipart_form_entries (document_cookie : string)
    (data : list (string * value)) (request : FetchCall)
    (fd : list (string * FormValue)) :
  createPost env document_cookie data = Ok request ->
  body request = Some (FormBody fd) ->
  (forall k fv, (k, fv) ∈ fd -> k <> "featured_image" /\ k <> "og_image")
  /\ (forall k v, (k, FormFile v) ∈ fd ->
        instanceof_File v = true
        /\ ((k = "featured_image_upload" /\ v = lookup_prop "featured_image" data)
            \/ (k = "og_image_upload" /\ v = lookup_prop "og_image" data)))
  /\ (forall k v, (k, v) ∈ data -> k <> "featured_image" -> k <> "og_image" ->
        lookup_prop k data <> Undefined ->
        (k, text_of (lookup_prop k data)) ∈ fd)
  /\ (forall k s, lookup_prop k data = Undefined -> (k, FormText s) ∉ fd).
Proof.
  intros Hreq Hbody.
  assert (fd = form_of data) as ->.
  { unfold createPost in Hreq.
    destruct (getCSRFToken env document_cookie) as [token|e] eqn:Htok.
    - rewrite (postPayload_cases _ _ _ Htok) in Hreq. cbn [bind] in Hreq.
      injection Hreq as <-. cbn [body] in Hbody.
      destruct (has_file data); cbn [fst] in Hbody; congruence.
    - unfold postPayload, getAuthHeaders in Hreq. rewrite Htok in Hreq.
      destruct (_ || _); discriminate. }
  pose proof (form_of_spec data) as Hmem.
  split_and!.
  - intros k fv Hin. apply Hmem in Hin as [Hin|[(_ & -> & _)|(_ & -> & _)]];
      [|done|done].
    apply appendFields_spec in Hin as (_ & Hk & _). unfold is_upload_key in Hk.
    apply orb_false_elim in Hk as [H1 H2].
    split; intros ->; discriminate.
  - intros k v Hin. apply Hmem in Hin as [Hin|[(Hi & -> & [= ->])|(Hi & -> & [= ->])]].
    + apply appendFields_spec in Hin as (_ & _ & _ & Hfv). discriminate.
    + eauto.
    + eauto.
  - intros k v Hin H1 H2 Hdef. apply Hmem. left. apply appendFields_spec.
    split; [eauto|]. split.
    { unfold is_upload_key. apply orb_false_intro; by apply String.eqb_neq. }
    split; [by destruct (lookup_prop k data)|reflexivity].
  - intros k s Hundef Hin. apply Hmem in Hin as [Hin|[(_ & _ & [=])|(_ & _ & [=])]].
    apply appendFields_spec in Hin as (_ & _ & Hu & _). by rewrite Hundef in Hu.
Qed.

End Payload.

Definition upload_post : list (string * value) :=
  [ ("title", Str "Hello"); ("tag_ids", Arr [Num 1; Num 2]);
    ("excerpt", Undefined); ("featured_image", File "cover.png") ].

(** Witness of [post_encoding]: a post with a cover file. *)
Lemma post_encoding_witness :
  exists create update,
    createPost demo_browser demo_cookie upload_post = Ok create
    /\ updatePost demo_browser demo_cookie "hello" upload_post = Ok update
    /\ body update = body create /\ headers update = headers create
    /\ headers create !! "X-CSRFToken" = Some "abc123"
    /\ (has_file upload_post = true ->
        (exists fd, body create = Some (FormBody fd))
        /\ headers create !! "Content-Type" = None
        /\ size (headers create) = 1)
    /\ (has_file upload_post = false ->
        body create
        = Some (StringBody (JSON_stringify demo_browser (Obj upload_post)))
        /\ headers create !! "Content-Type" = Some "application/json"
        /\ size (headers create) = 2).
Proof.
  exact (post_encoding demo_browser demo_cookie "hello" (Some "abc123")
           upload_post eq_refl).
Defined.

Definition upload_form : list (string * FormValue) :=
  [ ("title", FormText "Hello"); ("tag_ids", FormText "{...}");
    ("featured_image_upload", FormFile (File "cover.png")) ].

Lemma upload_request :
  createPost demo_browser demo_cookie upload_post
  = Ok {| url := "/api/v1/blog/posts/"; method := Some "POST";
          headers := {[ "X-CSRFToken" := "abc123" ]};
          credentials := Some "include"; body := Some (FormBody upload_form) |}.
Proof. vm_compute. reflexivity. Qed.

(** Witness of [multipart_form_entries]: the same post. *)
Lemma multipart_form_entries_witness :
  (forall k fv, (k, fv) ∈ upload_form -> k <> "featured_image" /\ k <> "og_image")
  /\ (forall k v, (k, FormFile v) ∈ upload_form ->
        instanceof_File v = true
        /\ ((k = "featured_image_upload" /\ v = lookup_prop "featured_image" upload_post)
            \/ (k = "og_image_upload" /\ v = lookup_prop "og_image" upload_post)))
  /\ (forall k v, (k, v) ∈ upload_post -> k <> "featured_image" -> k <> "og_image" ->
        lookup_prop k upload_post <> Undefined ->
        (k, text_of demo_browser (lookup_prop k upload_post)) ∈ upload_form)
  /\ (forall k s, lookup_prop k upload_post = Undefined -> (k, FormText s) ∉ upload_form).
Proof.
  exact (multipart_form_entries demo_browser demo_cookie upload_post _ upload_form
           upload_request eq_refl).
Defined.

End PostPayloadFacts.

(** ** The theme API client *)

Module ThemeApiFacts.
Import JS JSFacts BlogApi BlogApiFacts ThemeApi.

Section Service.
Variable env : Browser.

Lemma makeAuthenticatedRequest_plain (document_cookie url : string)
    (token : option string) (options : RequestInit) :
  getCSRFToken env document_cookie = Ok token ->
  init_headers options = None ->
  makeAuthenticatedRequest env document_cookie url options
  = Ok {| url := baseUrl +:+ url; method := init_method options;
          headers := {[ "X-CSRFToken" := default EmptyString token ]}
                     ∪ {[ "Content-Type" := "application/json" ]};
          credentials := Some (default "include" (init_credentials options));
          body := init_body options |}.
Proof.
  intros Htok Hh. unfold makeAuthenticatedRequest, makeRequest.
  rewrite Htok, Hh. cbn [bind default init_method init_headers
                          init_credentials init_body].
  by rewrite str_or_default, (left_id_L ∅ (∪)).
Qed.

Definition is_delete (w : ThemeWrite) : bool :=
  match w with DeleteTheme _ => true | _ => false end.

(** X12.  Whenever the CSRF cookie can be read, each write of the theme
    service (set current, create, generate, duplicate, update, delete)
    issues a request under /api/v1/themes/ with credentials included and
    an X-CSRFToken header holding the token, or the empty string when
    the cookie is absent; all but delete send a JSON body with
    Content-Type application/json, and delete sends neither. *)
Theorem theme_writes_carry_csrf (document_cookie : string)
    (token : option string) (w : ThemeWrite) :
  getCSRFToken env document_cookie = Ok token ->
  exists request, write_request env document_cookie w = Ok request
    /\ String.prefix "/api/v1/themes/" (url request) = true
    /\ credentials request = Some "include"
    /\ headers request !! "X-CSRFToken"
       = Some (match token with Some t => t | None => EmptyString end)
    /\ (if is_delete w
        then method request = Some "DELETE" /\ body request = None
             /\ headers request !! "Content-Type" = None
        else (method request = Some "POST" \/ method request = Some "PUT")
             /\ (exists text, body request = Some (StringBody text))
             /\ headers request !! "Content-Type" = Some "application/json").
Proof.
  intros Htok.
  destruct w; cbn [write_request is_delete];
    unfold setCurrentTheme, createTheme, generateTheme, duplicateTheme,
      updateTheme, deleteTheme;
    try match goal with
        | |- context [makeAuthenticatedRequest env ?c ?u ?o] =>
            rewrite (makeAuthenticatedRequest_plain c u token o Htok eq_refl)
        end;
    rewrite ?Htok; cbn [bind]; eexists; (split; [reflexivity|]);
    cbn [url credentials headers method body post_json init_method
         init_credentials init_body default];
    rewrite ?str_or_default;
    (split; [apply prefix_app; eexists; reflexivity|]); (split; [reflexivity|]);
    (split; [destruct token; by simplify_map_eq|]);
    repeat split; eauto; by simplify_map_eq.
Qed.

(** X13.  A [headers] property passed in the options of
    makeAuthenticatedRequest replaces the merged headers: the request
    carries exactly the caller's headers, so it has an X-CSRFToken or a
    Content-Type only if the caller's headers hold one. *)
Theorem option_headers_replace_csrf (document_cookie url : string)
    (token : option string) (options : RequestInit) (hs : gmap string string) :
  getCSRFToken env document_cookie = Ok token ->
  init_headers options = Some hs ->
  exists request,
    makeAuthenticatedRequest env document_cookie url options = Ok request
    /\ headers request = hs
    /\ headers request !! "X-CSRFToken" = hs !! "X-CSRFToken"
    /\ headers request !! "Content-Type" = hs !! "Content-Type".
Proof.
  intros Htok Hh. unfold makeAuthenticatedRequest, makeRequest.
  rewrite Htok, Hh. cbn [bind]. eexists. split; [reflexivity|].
  cbn [headers init_headers default]. done.
Qed.

End Service.

(** Witness of [theme_writes_carry_csrf]: deleting a theme. *)
Lemma theme_writes_carry_csrf_witness :
  exists request,
    write_request demo_browser demo_cookie (DeleteTheme "mono") = Ok request
    /\ String.prefix "/api/v1/themes/" (url request) = true
    /\ credentials request = Some "include"
    /\ headers request !! "X-CSRFToken" = Some "abc123"
    /\ method request = Some "DELETE" /\ body request = None
    /\ headers request !! "Content-Type" = None.
Proof.
  exact (theme_writes_carry_csrf demo_browser demo_cookie (Some "abc123")
           (DeleteTheme "mono") eq_refl).
Defined.

Definition accept_only : RequestInit :=
  {| init_method := Some "POST";
     init_headers := Some {[ "Accept" := "application/json" ]};
     init_credentials := None; init_body := None |}.

(** Witness of [option_headers_replace_csrf]: options with an Accept
    header lose the token. *)
Lemma option_headers_replace_csrf_witness :
  exists request,
    makeAuthenticatedRequest demo_browser demo_cookie "/themes/" accept_only
    = Ok request
    /\ headers request = {[ "Accept" := "application/json" ]}
    /\ headers request !! "X-CSRFToken"
       = ({[ "Accept" := "application/json" ]} : gmap string string) !! "X-CSRFToken"
    /\ headers request !! "Content-Type"
       = ({[ "Accept" := "application/json" ]} : gmap string string) !! "Content-Type".
Proof.
  exact (option_headers_replace_csrf demo_browser demo_cookie "/themes/"
           (Some "abc123") accept_only _ eq_refl eq_refl).
Defined.

Example accept_only_has_no_token :
  match makeAuthenticatedRequest demo_browser demo_cookie "/themes/" accept_only with
  | Ok request => headers request !! "X-CSRFToken" = None
  | Throw _ => False
  end.
Proof. vm_compute. reflexivity. Qed.

End ThemeApiFacts.

(** ** Error reporting of the blog API functions *)

Module BlogApiResponsesFacts.
Import JS JSFacts BlogApi BlogApiFacts BlogApiResponses.

Section Results.
Variable env : Browser.

(** X10.  deletePost, deleteCategory and deleteTag never surface a JSON
    parse error: on an ok response they return without reading the body;
    on any other response whose body does not parse they throw their
    default message, and when the body parses to an object they throw
    its detail if truthy and the default message otherwise. *)
Theorem delete_reports_detail_or_default (fallback : string)
    (response : HttpResponse) :
  delete_result env fallback response <> Throw SyntaxError
  /\ (ok response = true -> delete_result env fallback response = Ok tt)
  /\ (ok response = false -> json response = None ->
      delete_result env fallback response = Throw (Error fallback))
  /\ (forall props, ok response = false -> json response = Some (Obj props) ->
      delete_result env fallback response
      = Throw (Error (if truthy (lookup_prop "detail" props)
                      then message_of env (lookup_prop "detail" props)
                      else fallback))).
Proof.
  unfold delete_result, throw_detail.
  destruct (ok response); cbn [negb].
  - repeat split; try done.
  - split.
    { destruct (json response) as [[]|]; cbn; try discriminate.
      all: by destruct (truthy _). }
    split; [done|]. split.
    + intros _ ->. cbn. by destruct (truthy_string fallback).
    + intros props _ ->. reflexivity.
Qed.

(** X11.  createPost, updatePost, uploadBlogImage and the category and
    tag writes read the error body without a catch: on a response that
    is not ok and whose body does not parse they throw the parse error,
    not their default message; when the body parses to an object they
    throw its detail (for the upload, its error) if truthy and the
    default message otherwise; and a body that is JSON null makes them
    throw a TypeError. *)
Theorem write_reports_parse_error (key fallback : string)
    (response : HttpResponse) :
  ok response = false ->
  (json response = None ->
   write_result env key fallback response = Throw SyntaxError)
  /\ (json response = Some Null ->
      write_result env key fallback response = Throw TypeError)
  /\ (forall props, json response = Some (Obj props) ->
      write_result env key fallback response
      = Throw (Error (if truthy (lookup_prop key props)
                      then message_of env (lookup_prop key props)
                      else fallback))).
Proof.
  intros Hok. unfold write_result, read_json, throw_detail. rewrite Hok.
  cbn [negb]. split; [by intros ->|]. split; [by intros ->|].
  intros props ->. reflexivity.
Qed.

End Results.

Definition not_found_html : HttpResponse :=
  {| ok := false; http_status := 502; json := None |}.

Definition forbidden : HttpResponse :=
  {| ok := false; http_status := 403;
     json := Some (Obj [ ("detail", Str "CSRF Failed") ]) |}.

Example deletePost_on_gateway_error :
  deletePost_result demo_browser not_found_html = Throw (Error "Failed to delete post").
Proof. reflexivity. Qed.

Example createPost_on_forbidden :
  createPost_result demo_browser forbidden = Throw (Error "CSRF Failed").
Proof. reflexivity. Qed.

(** Witness of [write_reports_parse_error]: a gateway error page. *)
Lemma write_reports_parse_error_witness :
  (json not_found_html = None ->
   createPost_result demo_browser not_found_html = Throw SyntaxError)
  /\ (json not_found_html = Some Null ->
      createPost_result demo_browser not_found_html = Throw TypeError)
  /\ (forall props, json not_found_html = Some (Obj props) ->
      createPost_result demo_browser not_found_html
      = Throw (Error (if truthy (lookup_prop "detail" props)
                      then message_of demo_browser (lookup_prop "detail" props)
                      else "Failed to create post"))).
Proof.
  exact (write_reports_parse_error demo_browser "detail" "Failed to create post"
           not_found_html eq_refl).
Defined.

End BlogApiResponsesFacts.

(** ** The theme registry after loading *)

Module ThemeConfigFacts.
Import JS JSFacts ThemeLoader ThemeLoaderFacts ThemeConfig.

Lemma themeNames_distinct : NoDup themeNames.
Proof. apply (bool_decide_unpack _). vm_compute. exact I. Qed.

Lemma themeNames_not_inherited (name : string) :
  name ∈ themeNames -> name ∉ Object_prototype_keys.
Proof.
  intros Hin Hproto.
  assert (Forall (fun n => n ∉ Object_prototype_keys) themeNames) as Hall.
  { apply (bool_decide_unpack _). vm_compute. exact I. }
  rewrite Forall_forall in Hall. by apply (Hall name).
Qed.

(** What the registry holds for an import once it validates. *)
Definition loaded_form (themeData : value) : option value :=
  match themeData with
  | Obj props => if validates themeData then Some (Obj (normalized props)) else None
  | _ => None
  end.

Lemma loadTheme_registry' (st : LoaderState) (themeName : string) (themeData : value) :
  THEME_REGISTRY (loadTheme st (themeName, themeData))
  = match loaded_form themeData with
    | Some theme => <[themeName := theme]> (THEME_REGISTRY st)
    | None => THEME_REGISTRY st
    end.
Proof.
  rewrite loadTheme_registry. unfold loaded_form.
  destruct themeData; try reflexivity. by destruct (validates _).
Qed.

Lemma loadTheme_count (st : LoaderState) (themeName : string) (themeData : value) :
  loadedCount (loadTheme st (themeName, themeData))
  = (if validates themeData then S (loadedCount st) else loadedCount st).
Proof.
  unfold loadTheme.
  destruct (validateThemeData_validates themeData) as (v & -> & Ht).
  cbn [bind]. rewrite Ht. destruct (validates themeData) eqn:Hv; [|reflexivity].
  destruct (validates_obj _ Hv) as [props ->].
  by rewrite normalizeThemeData_obj.
Qed.

(** With pairwise distinct names each import decides the entry under its
    own name, and the counter counts the imports that validate. *)
Lemma loadThemes_distinct (imports : list (string * value)) (st : LoaderState) :
  NoDup imports.*1 ->
  (forall name data, (name, data) ∈ imports ->
     THEME_REGISTRY (fold_left loadTheme imports st) !! name
     = match loaded_form data with
       | Some theme => Some theme
       | None => THEME_REGISTRY st !! name
       end)
  /\ (forall name, name ∉ imports.*1 ->
        THEME_REGISTRY (fold_left loadTheme imports st) !! name
        = THEME_REGISTRY st !! name)
  /\ loadedCount (fold_left loadTheme imports st)
     = loadedCount st + length (filter (fun e => validates e.2 = true) imports).
Proof.
  revert st. induction imports as [|[n d] imports IH]; intros st Hnd;
    cbn [fold_left].
  - split; [intros ? ? H; by apply elem_of_nil in H|]. split; [done|].
    cbn. lia.
  - rewrite fmap_cons in Hnd. apply NoDup_cons in Hnd as [Hn Hnd]. cbn [fst] in Hn.
    destruct (IH (loadTheme st (n, d)) Hnd) as (IH1 & IH2 & IH3).
    assert (forall k, k <> n ->
              THEME_REGISTRY (loadTheme st (n, d)) !! k = THEME_REGISTRY st !! k) as Hother.
    { intros k Hk. rewrite loadTheme_registry'.
      destruct (loaded_form d); [by rewrite lookup_insert_ne|done]. }
    split; [|split].
    + intros name data Hin. apply elem_of_cons in Hin as [[= -> ->]|Hin].
      * rewrite IH2 by done. rewrite loadTheme_registry'.
        destruct (loaded_form d); [by rewrite lookup_insert_eq|done].
      * rewrite (IH1 _ _ Hin). destruct (loaded_form data); [done|].
        apply Hother. intros ->. apply Hn.
        by apply (list_elem_of_fmap_2 fst _ (n, data)).
    + intros name Hname. rewrite fmap_cons in Hname.
      apply not_elem_of_cons in Hname as [H1 H2]. cbn [fst] in H1.
      rewrite IH2 by done. by apply Hother.
    + rewrite IH3, loadTheme_count, filter_cons. cbn [snd].
      destruct (validates d) eqn:Hv.
      * rewrite decide_True by done. cbn [length]. lia.
      * rewrite decide_False by congruence. lia.
Qed.

Lemma themeImports_names (json : string -> value) :
  (themeImports json).*1 = themeNames.
Proof.
  unfold themeImports. generalize themeNames as names.
  induction names as [|n names IH]; [reflexivity|]. cbn. by rewrite IH.
Qed.

Lemma themeImports_elem (json : string -> value) (name : string) (data : value) :
  (name, data) ∈ themeImports json <-> name ∈ themeNames /\ data = json name.
Proof.
  unfold themeImports. rewrite list_elem_of_In, in_map_iff. split.
  - intros (n & [= <- <-] & Hin). by rewrite list_elem_of_In.
  - intros [Hin ->]. exists name. by rewrite <- list_elem_of_In.
Qed.

(** X14.  After loadThemes has run over the forty imports on an empty
    registry, getLocalTheme answers for an imported name with the
    normalised theme when the JSON of that name passes validation and
    with null when it does not; for any other name it answers null,
    unless the name is a property of Object.prototype. *)
Theorem getLocalTheme_after_loading (json : string -> value) (themeName : string) :
  let registry := THEME_REGISTRY (loadThemes (themeImports json) ∅) in
  (themeName ∈ themeNames -> passes (json themeName) ->
   exists theme, normalizeThemeData (json themeName) = Ok theme
     /\ getLocalTheme registry themeName = Some (Own theme))
  /\ (themeName ∈ themeNames -> ~ passes (json themeName) ->
      getLocalTheme registry themeName = None)
  /\ (themeName ∉ themeNames -> themeName ∉ Object_prototype_keys ->
      getLocalTheme registry themeName = None)
  /\ (themeName ∈ Object_prototype_keys ->
      getLocalTheme registry themeName = Some (Inherited themeName)).
Proof.
  cbv zeta. unfold loadThemes.
  destruct (loadThemes_distinct (themeImports json)
              {| THEME_REGISTRY := ∅; loadedCount := 0 |}) as (H1 & H2 & _).
  { rewrite themeImports_names. apply themeNames_distinct. }
  cbn [THEME_REGISTRY] in H1, H2. split_and!.
  - intros Hin Hpass. apply passes_validates in Hpass.
    destruct (validates_obj _ Hpass) as [props Hprops].
    exists (Obj (normalized props)). rewrite Hprops at 1.
    split; [apply normalizeThemeData_obj|].
    unfold getLocalTheme, read.
    rewrite (H1 themeName (json themeName)) by (by apply themeImports_elem).
    unfold loaded_form. rewrite Hprops in *. by rewrite Hpass.
  - intros Hin Hfail. unfold getLocalTheme, read.
    rewrite (H1 themeName (json themeName)) by (by apply themeImports_elem).
    assert (loaded_form (json themeName) = None) as ->.
    { unfold loaded_form. destruct (json themeName) eqn:E; try done.
      destruct (validates _) eqn:Hv; [|done].
      exfalso. apply Hfail. by apply passes_validates. }
    rewrite lookup_empty.
    by rewrite bool_decide_eq_false_2 by (by apply themeNames_not_inherited).
  - intros Hout Hproto. unfold getLocalTheme, read.
    rewrite H2 by (by rewrite themeImports_names).
    rewrite lookup_empty. by rewrite bool_decide_eq_false_2.
  - intros Hproto. unfold getLocalTheme, read.
    rewrite H2.
    + rewrite lookup_empty. by rewrite bool_decide_eq_true_2.
    + rewrite themeImports_names. intros Hin.
      by apply (themeNames_not_inherited themeName).
Qed.

Lemma loadTheme_state (reg : gmap string value) (count : nat) (n : string)
    (d : value) :
  loadTheme {| THEME_REGISTRY := reg; loadedCount := count |} (n, d)
  = {| THEME_REGISTRY :=
         match loaded_form d with
         | Some theme => <[n := theme]> reg
         | None => reg
         end;
       loadedCount := if validates d then S count else count |}.
Proof.
  pose proof (loadTheme_registry' {| THEME_REGISTRY := reg; loadedCount := count |} n d) as Hr.
  pose proof (loadTheme_count {| THEME_REGISTRY := reg; loadedCount := count |} n d) as Hc.
  destruct (loadTheme _ _) as [r c]. cbn in Hr, Hc. by subst.
Qed.

Lemma loaded_form_validates (d : value) :
  is_Some (loaded_form d) <-> validates d = true.
Proof.
  unfold loaded_form. destruct d as [| | | | | |props|];
    try (split; [intros [? [=]]|discriminate]).
  destruct (validates (Obj props)); split; eauto; try discriminate.
  intros [? [=]].
Qed.

Lemma registry_size (imports : list (string * value)) (reg : gmap string value)
    (count : nat) :
  NoDup imports.*1 ->
  (forall n, n ∈ imports.*1 -> reg !! n = None) ->
  size (dom (THEME_REGISTRY
    (fold_left loadTheme imports
       {| THEME_REGISTRY := reg; loadedCount := count |})))
  = size (dom reg) + length (filter (fun e => validates e.2 = true) imports).
Proof.
  revert reg count.
  induction imports as [|[n d] imports IH]; intros reg count Hnd Hfresh;
    cbn [fold_left]; [cbn; lia|].
  rewrite fmap_cons in Hnd. apply NoDup_cons in Hnd as [Hn Hnd]. cbn [fst] in Hn.
  rewrite loadTheme_state, IH; [|done|].
  - rewrite filter_cons. cbn [snd].
    destruct (loaded_form d) as [theme|] eqn:Hl.
    + assert (validates d = true) as Hv by (apply loaded_form_validates; eauto).
      rewrite decide_True by done.
      rewrite dom_insert_L, size_union, size_singleton.
      * cbn [length]. lia.
      * apply disjoint_singleton_l. apply not_elem_of_dom.
        apply Hfresh. by left.
    + assert (validates d <> true) as Hv.
      { intros Hv. apply loaded_form_validates in Hv as [? ?]. congruence. }
      by rewrite decide_False.
  - intros k Hk. assert (k <> n) as Hkn by (intros ->; done).
    destruct (loaded_form d).
    + rewrite lookup_insert_ne by done. apply Hfresh. by right.
    + apply Hfresh. by right.
Qed.

(** X15.  After loadThemes over the forty imports on an empty registry,
    the status reports as totalThemes the value of the loader's counter,
    which is the number of imports whose JSON passes validation, and
    isEmpty is true exactly when none passes (the case in which the
    loader warns that no theme was loaded). *)
Theorem status_counts_valid_imports (json : string -> value) :
  let st := loadThemes (themeImports json) ∅ in
  let status := getThemeRegistryStatus (THEME_REGISTRY st) in
  totalThemes status = loadedCount st
  /\ loadedCount st
     = length (filter (fun name => validates (json name) = true) themeNames)
  /\ totalThemes status <= 40
  /\ (isEmpty status = true <->
      forall name, name ∈ themeNames -> ~ passes (json name)).
Proof.
  cbv zeta.
  assert (NoDup (themeImports json).*1) as Hnd
    by (rewrite themeImports_names; apply themeNames_distinct).
  assert (length (filter (fun e => validates e.2 = true) (themeImports json))
          = length (filter (fun name => validates (json name) = true) themeNames))
    as Hlen.
  { unfold themeImports. generalize themeNames as names.
    induction names as [|n names IH]; [reflexivity|].
    cbn [map]. rewrite !filter_cons. cbn [snd].
    destruct (decide (validates (json n) = true)); cbn [length]; by rewrite IH. }
  assert (loadedCount (loadThemes (themeImports json) ∅)
          = length (filter (fun name => validates (json name) = true) themeNames))
    as Hcount.
  { unfold loadThemes.
    destruct (loadThemes_distinct (themeImports json)
                {| THEME_REGISTRY := ∅; loadedCount := 0 |} Hnd) as (_ & _ & ->).
    cbn [loadedCount]. by rewrite Hlen. }
  assert (totalThemes (getThemeRegistryStatus
            (THEME_REGISTRY (loadThemes (themeImports json) ∅)))
          = length (filter (fun name => validates (json name) = true) themeNames))
    as Htotal.
  { unfold getThemeRegistryStatus, loadThemes. cbn [totalThemes].
    rewrite registry_size; [|done|intros; apply lookup_empty].
    rewrite dom_empty_L, size_empty. by rewrite Hlen. }
  split; [congruence|]. split; [done|]. split.
  { rewrite Htotal. etrans; [apply length_filter|]. reflexivity. }
  unfold getThemeRegistryStatus in *. cbn [isEmpty totalThemes] in *.
  rewrite Htotal, Nat.eqb_eq, length_zero_iff_nil. split.
  - intros Hnil name Hin Hpass. apply passes_validates in Hpass.
    assert (name ∈ filter (fun name => validates (json name) = true) themeNames) as Hf
      by (apply list_elem_of_filter; done).
    rewrite Hnil in Hf. by apply elem_of_nil in Hf.
  - intros Hnone.
    destruct (filter _ themeNames) as [|n l] eqn:Hf; [done|].
    assert (n ∈ filter (fun name => validates (json name) = true) themeNames) as Hn
      by (rewrite Hf; by left).
    apply list_elem_of_filter in Hn as [Hv Hin].
    exfalso. apply (Hnone n Hin). by apply passes_validates.
Qed.

(** X16.  setDefaultTheme switches the default exactly when the registry
    answers the name with a truthy value and otherwise leaves it as it
    was; so a default that getDefaultTheme could resolve before the call
    can still be resolved after it, and after a switch getDefaultTheme
    returns what the registry holds under the new name. *)
Theorem setDefaultTheme_keeps_default_resolvable (registry : gmap string value)
    (defaultTheme themeName : string) :
  getDefaultTheme registry defaultTheme <> None ->
  getDefaultTheme registry (setDefaultTheme registry defaultTheme themeName) <> None
  /\ (getLocalTheme registry themeName <> None ->
      setDefaultTheme registry defaultTheme themeName = themeName
      /\ getDefaultTheme registry (setDefaultTheme registry defaultTheme themeName)
         = getLocalTheme registry themeName)
  /\ (getLocalTheme registry themeName = None ->
      setDefaultTheme registry defaultTheme themeName = defaultTheme).
Proof.
  unfold getDefaultTheme, setDefaultTheme, getLocalTheme. intros Hd.
  destruct (truthy_property (read registry themeName)) eqn:Ht.
  - rewrite Ht. split; [|split]; [|done|].
    + destruct (read registry themeName); [done|discriminate].
    + intros H. destruct (read registry themeName); [done|discriminate].
  - split; [done|]. split; [done|done].
Qed.

(** X17.  Every theme loadThemes has inserted into an empty registry is
    converted by legacyThemeToThemeData without an exception, to theme
    data whose name is the theme's truthy theme_name, whose css_vars
    hold truthy theme, light and dark groups, and which is marked as a
    system theme of version 1.0.0. *)
Theorem loaded_theme_converts (imports : list (string * value))
    (themeName : string) (theme : value) :
  THEME_REGISTRY (loadThemes imports ∅) !! themeName = Some theme ->
  exists themeData, legacyThemeToThemeData theme = Ok themeData
    /\ field themeData "name" = field theme "theme_name"
    /\ truthy (field themeData "name") = true
    /\ field themeData "display_name" = field theme "display_name"
    /\ truthy (field (field themeData "css_vars") "theme") = true
    /\ truthy (field (field themeData "css_vars") "light") = true
    /\ truthy (field (field themeData "css_vars") "dark") = true
    /\ field themeData "is_system_theme" = Bool true
    /\ field themeData "version" = Str "1.0.0".
Proof.
  unfold loadThemes. intros Hl.
  destruct (loadThemes_entries imports {| THEME_REGISTRY := ∅; loadedCount := 0 |})
    as [H1 _].
  destruct (H1 _ _ Hl) as [Hold|(props & _ & Hv & ->)].
  { cbn in Hold. by rewrite lookup_empty in Hold. }
  destruct (validates_normalized props Hv) as [Hv' Htn].
  eexists. split; [reflexivity|].
  unfold field. cbn [get lookup_prop String.eqb Ascii.eqb Bool.eqb].
  split; [reflexivity|]. split; [exact Htn|]. split; [reflexivity|].
  unfold validates in Hv'. repeat (apply andb_prop in Hv' as [Hv' ?]).
  unfold field in *. done.
Qed.

(** X18.  The try block of loadThemes never throws: validateThemeData
    returns for every value, null, undefined, primitives and arrays
    included, and accepts object literals only; and normalizeThemeData
    returns for everything validation accepts. *)
Theorem theme_loading_never_throws (themeData : value) :
  exists verdict, validateThemeData themeData = Ok verdict
    /\ (truthy verdict = true ->
        (exists props, themeData = Obj props)
        /\ exists theme, normalizeThemeData themeData = Ok theme)
    /\ (forall st themeName,
          truthy verdict = false -> loadTheme st (themeName, themeData) = st).
Proof.
  destruct (validateThemeData_validates themeData) as (v & Hv & Ht).
  exists v. split; [done|]. split.
  - intros Htrue. rewrite Ht in Htrue.
    destruct (validates_obj _ Htrue) as [props ->].
    split; [eauto|]. eexists. apply normalizeThemeData_obj.
  - intros st themeName Hfalse. unfold loadTheme. rewrite Hv. cbn [bind].
    by rewrite Hfalse.
Qed.

Lemma named_idempotent (props : list (string * value)) :
  named (named props) = named props.
Proof.
  unfold named at 1. rewrite named_theme_name, (named_other props "name") by done.
  destruct (truthy (lookup_prop "theme_name" props)) eqn:H1; cbv iota.
  - by rewrite H1.
  - destruct (truthy (lookup_prop "name" props)) eqn:H2; cbv iota.
    + by rewrite H2.
    + by rewrite H1.
Qed.

Lemma named_normalized (props : list (string * value)) :
  named (normalized props) = normalized props.
Proof.
  unfold named at 1. rewrite normalized_theme_name, (normalized_other props "name") by done.
  destruct (truthy (lookup_prop "theme_name" props)) eqn:H1; cbv iota.
  - by rewrite H1.
  - destruct (truthy (lookup_prop "name" props)) eqn:H2; cbv iota.
    + by rewrite H2.
    + by rewrite H1.
Qed.

(** X19.  On an object literal normalizeThemeData is idempotent, changes
    no property other than theme_name and success, never replaces a
    truthy theme_name, and never replaces a success property that is
    present. *)
Theorem normalizeThemeData_idempotent (props : list (string * value)) :
  exists props', normalizeThemeData (Obj props) = Ok (Obj props')
    /\ normalizeThemeData (Obj props') = Ok (Obj props')
    /\ (forall k, k <> "theme_name" -> k <> "success" ->
          lookup_prop k props' = lookup_prop k props)
    /\ (truthy (lookup_prop "theme_name" props) = true ->
        lookup_prop "theme_name" props' = lookup_prop "theme_name" props)
    /\ (lookup_prop "success" props <> Undefined ->
        lookup_prop "success" props' = lookup_prop "success" props).
Proof.
  exists (normalized props). split; [apply normalizeThemeData_obj|]. split.
  - rewrite normalizeThemeData_obj. do 2 f_equal.
    unfold normalized at 1.
    rewrite named_normalized, normalized_success.
    destruct (lookup_prop "success" props); reflexivity.
  - split; [intros; by apply normalized_other|]. split.
    + intros Ht. rewrite normalized_theme_name. by rewrite Ht.
    + intros Hs. rewrite normalized_success.
      by destruct (lookup_prop "success" props).
Qed.

Definition mono_registry : gmap string value :=
  THEME_REGISTRY (loadThemes [ ("mono", mono_json) ] ∅).

Definition mono_theme : value :=
  Obj [ ("name", Str "mono"); ("display_name", Str "Mono"); ("cssVars", groups);
        ("theme_name", Str "mono"); ("success", Bool true) ].

Lemma mono_registered : mono_registry !! "mono" = Some mono_theme.
Proof. vm_compute. reflexivity. Qed.

Lemma mono_resolves : getDefaultTheme mono_registry "mono" <> None.
Proof. vm_compute. discriminate. Qed.

(** Witness of [setDefaultTheme_keeps_default_resolvable]: asking for a
    theme that was never registered. *)
Lemma setDefaultTheme_keeps_default_resolvable_witness :
  getDefaultTheme mono_registry (setDefaultTheme mono_registry "mono" "claude") <> None
  /\ (getLocalTheme mono_registry "claude" <> None ->
      setDefaultTheme mono_registry "mono" "claude" = "claude"
      /\ getDefaultTheme mono_registry (setDefaultTheme mono_registry "mono" "claude")
         = getLocalTheme mono_registry "claude")
  /\ (getLocalTheme mono_registry "claude" = None ->
      setDefaultTheme mono_registry "mono" "claude" = "mono").
Proof.
  exact (setDefaultTheme_keeps_default_resolvable mono_registry "mono" "claude"
           mono_resolves).
Defined.

Example setDefaultTheme_inherited_name :
  setDefaultTheme ∅ "vercel" "constructor" = "constructor"
  /\ getDefaultTheme ∅ "constructor" = Some (Inherited "constructor")
  /\ setDefaultTheme ∅ "vercel" "claude" = "vercel".
Proof. repeat split. Qed.

(** Witness of [loaded_theme_converts]: the mono theme. *)
Lemma loaded_theme_converts_witness :
  exists themeData, legacyThemeToThemeData mono_theme = Ok themeData
    /\ field themeData "name" = field mono_theme "theme_name"
    /\ truthy (field themeData "name") = true
    /\ field themeData "display_name" = field mono_theme "display_name"
    /\ truthy (field (field themeData "css_vars") "theme") = true
    /\ truthy (field (field themeData "css_vars") "light") = true
    /\ truthy (field (field themeData "css_vars") "dark") = true
    /\ field themeData "is_system_theme" = Bool true
    /\ field themeData "version" = Str "1.0.0".
Proof.
  exact (loaded_theme_converts [ ("mono", mono_json) ] "mono" mono_theme
           mono_registered).
Defined.

Example status_of_mixed_imports :
  let json := fun name => if String.eqb name "mono" then mono_json else broken_json in
  totalThemes (getThemeRegistryStatus
                 (THEME_REGISTRY (loadThemes (themeImports json) ∅))) = 1.
Proof. vm_compute. reflexivity. Qed.

End ThemeConfigFacts.

(** ** The authentication hook *)

Module AuthHookFacts.
Import JS JSFacts AuthHook.

Section Hook.
Variable js : Json.

(** X20.  After updateAuthState the hook is no longer loading; it is
    authenticated exactly when localStorage holds a non-empty user item
    that parses as JSON, and then the user is the parsed value; an item
    that does not parse is removed from localStorage; no other key is
    touched; and running it again changes nothing. *)
Theorem updateAuthState_reads_storage (w : World) :
  let w' := updateAuthState js w in
  isLoading (auth w') = false
  /\ (isAuthenticated (auth w') = true <->
      exists text userData,
        localStorage w !! "user" = Some text /\ text <> EmptyString
        /\ JSON_parse js text = Some userData /\ user (auth w') = userData)
  /\ (isAuthenticated (auth w') = false -> user (auth w') = Null)
  /\ (forall text, localStorage w !! "user" = Some text -> text <> EmptyString ->
        JSON_parse js text = None -> localStorage w' !! "user" = None)
  /\ (forall k, k <> "user" -> localStorage w' !! k = localStorage w !! k)
  /\ updateAuthState js w' = w'.
Proof.
  cbv zeta. unfold updateAuthState.
  destruct (localStorage w !! "user") as [text|] eqn:Hl.
  - destruct (truthy_string text) eqn:Ht.
    + apply truthy_string_nonempty in Ht as Hne.
      destruct (JSON_parse js text) as [userData|] eqn:Hp; cbn.
      * rewrite Hl, Ht, Hp. split_and!; try done.
        -- split; [intros _; eauto 6|done].
        -- intros t [= <-] _ H. congruence.
      * rewrite lookup_delete_eq. split_and!; try done.
        -- split; [discriminate|]. intros (t & u & [= <-] & _ & H & _). congruence.
        -- intros k Hk. by rewrite lookup_delete_ne.
    + cbn. rewrite Hl, Ht. split_and!; try done.
      * split; [discriminate|]. intros (t & u & [= <-] & Hne & _).
        by destruct text.
      * intros t [= <-] Hne. by destruct text.
  - cbn. rewrite Hl. split_and!; try done.
    split; [discriminate|]. intros (t & u & [=] & _).
Qed.


End Hook.

(** A stand-in for the JSON codec on the two texts of the examples. *)
Definition demo_json : Json :=
  {| JSON_parse := fun text =>
       if String.eqb text "{user:ada}" then Some (Obj [ ("username", Str "ada") ])
       else if String.eqb text "null" then Some Null
       else None;
     JSON_stringify := fun v =>
       match v with Null => "null" | _ => "{user:ada}" end |}.

Example corrupted_user_is_removed :
  updateAuthState demo_json (initial {[ "user" := "{oops"; "theme-mode" := "dark" ]})
  = {| localStorage := {[ "theme-mode" := "dark" ]};
       auth := {| user := Null; isAuthenticated := false; isLoading := false |} |}.
Proof. vm_compute. reflexivity. Qed.

(** A stored [null] parses, so the hook reports an authenticated
    session without a user. *)
Example stored_null_authenticates :
  auth (updateAuthState demo_json (initial {[ "user" := "null" ]}))
  = {| user := Null; isAuthenticated := true; isLoading := false |}.
Proof. reflexivity. Qed.

End AuthHookFacts.

(** ** Font names *)

Module FontsFacts.
Import JS JSFacts Editor EditorFacts Fonts.

Lemma not_name_char_slug (c : ascii) : not_name_char c = negb (slug_char c).
Proof. reflexivity. Qed.

Lemma remove_chars_all (drop : ascii -> bool) (s : string) :
  all_chars (fun c => negb (drop c)) (remove_chars drop s) = true.
Proof.
  induction s as [|c s IH]; [reflexivity|]. cbn [remove_chars].
  destruct (drop c) eqn:Hd; [exact IH|]. cbn [all_chars]. by rewrite Hd, IH.
Qed.

Lemma remove_chars_fixed (drop : ascii -> bool) (s : string) :
  all_chars (fun c => negb (drop c)) s = true -> remove_chars drop s = s.
Proof.
  induction s as [|c s IH]; [reflexivity|]. cbn [all_chars remove_chars].
  intros H. apply andb_prop in H as [Hc Hs]. apply negb_true_iff in Hc.
  by rewrite Hc, IH.
Qed.

Lemma all_chars_ext (P Q : ascii -> bool) (s : string) :
  (forall c, P c = Q c) -> all_chars P s = all_chars Q s.
Proof.
  intros H. induction s as [|c s IH]; [reflexivity|].
  cbn [all_chars]. by rewrite H, IH.
Qed.

Lemma append_empty_r (s : string) : s +:+ EmptyString = s.
Proof.
  induction s as [|c s IH]; [reflexivity|].
  change (String c (s +:+ EmptyString) = String c s). by rewrite IH.
Qed.

Lemma slug_char_not_space (c : ascii) :
  slug_char c = true -> BlogApi.is_space c = false.
Proof.
  destruct c as [[] [] [] [] [] [] [] []]; vm_compute; intros H;
    first [reflexivity | discriminate H].
Qed.

Lemma replace_spaces_fixed (b : bool) (s : string) :
  all_chars slug_char s = true -> replace_spaces b s = s.
Proof.
  revert b. induction s as [|c s IH]; intros b; [reflexivity|].
  cbn [all_chars replace_spaces]. intros H. apply andb_prop in H as [Hc Hs].
  by rewrite (slug_char_not_space c Hc), IH.
Qed.

(** X22.  For every font name, normalizeFontName yields a string of
    lower-case ASCII letters, digits and hyphens only, and applying it
    again changes nothing. *)
Theorem normalizeFontName_wellformed (fontName : string) :
  all_chars slug_char (normalizeFontName fontName) = true
  /\ normalizeFontName (normalizeFontName fontName) = normalizeFontName fontName.
Proof.
  assert (all_chars slug_char (normalizeFontName fontName) = true) as Hall.
  { unfold normalizeFontName.
    rewrite (all_chars_ext slug_char (fun c => negb (not_name_char c))).
    - apply remove_chars_all.
    - intros c. rewrite not_name_char_slug. by rewrite negb_involutive. }
  split; [exact Hall|].
  unfold normalizeFontName at 1.
  rewrite toLowerCase_fixed, replace_spaces_fixed by exact Hall.
  apply remove_chars_fixed.
  rewrite <- Hall. apply all_chars_ext.
  intros c. rewrite not_name_char_slug. by rewrite negb_involutive.
Qed.

Example normalizeFontName_examples :
  normalizeFontName "Open Sans" = "open-sans"
  /\ normalizeFontName "  JetBrains   Mono!" = "-jetbrains-mono"
  /\ normalizeFontName "A - B" = "a---b".
Proof. repeat split. Qed.

(** X23.  isWebFont answers false exactly for the names that, in lower
    case and trimmed, contain one of the listed system font names as a
    substring; so a family whose name merely contains serif, arial or
    times is not treated as a web font. *)
Theorem isWebFont_substring (fontName : string) :
  isWebFont fontName = false <->
  exists sysFont pre post,
    sysFont ∈ systemFonts
    /\ BlogApi.trim (toLowerCase fontName) = pre +:+ sysFont +:+ post.
Proof.
  unfold isWebFont. rewrite negb_false_iff, existsb_exists. split.
  - intros (sysFont & Hin & Hm). apply list_elem_of_In in Hin.
    apply orb_prop in Hm as [Heq|Hinc].
    + apply String.eqb_eq in Heq. exists sysFont, EmptyString, EmptyString.
      split; [done|]. rewrite Heq.
      change (sysFont = sysFont +:+ EmptyString). by rewrite append_empty_r.
    + apply includes_spec in Hinc as (pre & post & H). eauto.
  - intros (sysFont & pre & post & Hin & H). exists sysFont.
    split; [by apply list_elem_of_In|].
    apply orb_true_intro. right. apply includes_spec. eauto.
Qed.

Example isWebFont_examples :
  isWebFont "Inter" = true /\ isWebFont "Noto Serif" = false
  /\ isWebFont " ARIAL Narrow " = false /\ isWebFont "Times" = false.
Proof. repeat split. Qed.

(** The family a font variable names: the first comma-separated part,
    trimmed, without quote characters. *)
Definition family_of (text : string) : string :=
  remove_chars is_quote (BlogApi.trim (first_part text)).

Definition names_web_font (entry : string * value) (font : string) : Prop :=
  exists key text, entry = (key, Str text)
    /\ String.prefix "font-" key = true
    /\ font = family_of text /\ font <> EmptyString /\ isWebFont font = true.

Lemma addThemeFont_spec (acc : list string) (entry : string * value) (font : string) :
  font ∈ addThemeFont acc entry <-> font ∈ acc \/ names_web_font entry font.
Proof.
  unfold names_web_font. destruct entry as [key value]. cbn [addThemeFont].
  destruct value as [| | | |text| | |];
    try (split; [by left|intros [H|(k & t & [=] & _)]; done]).
  fold (family_of text).
  destruct (String.prefix "font-" key) eqn:Hk.
  2: { split; [by left|]. intros [H|(k & t & [= <- <-] & Hp & _)]; [done|congruence]. }
  destruct (truthy_string (family_of text)) eqn:Ht.
  2: { split; [by left|]. intros [H|(k & t & [= <- <-] & _ & -> & Hne & _)]; [done|].
       apply truthy_string_nonempty in Hne. congruence. }
  destruct (isWebFont (family_of text)) eqn:Hw.
  2: { split; [by left|]. intros [H|(k & t & [= <- <-] & _ & -> & _ & Hweb)]; [done|].
       congruence. }
  apply truthy_string_nonempty in Ht. unfold set_add. case_bool_decide.
  - split; [by left|]. intros [H'|(k & t & [= <- <-] & _ & -> & _)]; done.
  - rewrite elem_of_app, list_elem_of_singleton. split.
    + intros [H' | ->]; [by left|]. right. exists key, text. done.
    + intros [H'|(k & t & [= <- <-] & _ & -> & _)]; [by left|by right].
Qed.

Lemma addThemeFont_NoDup (acc : list string) (entry : string * value) :
  NoDup acc -> NoDup (addThemeFont acc entry).
Proof.
  intros Hnd. destruct entry as [key value]. cbn [addThemeFont].
  destruct value; try done. destruct (String.prefix "font-" key); [|done].
  destruct (truthy_string _); [|done]. destruct (isWebFont _); [|done].
  unfold set_add. case_bool_decide; [done|].
  apply NoDup_app. split; [done|]. split; [|apply NoDup_singleton].
  intros x Hx Hx'. apply list_elem_of_singleton in Hx'. by subst.
Qed.

(** X24.  getThemeFonts returns, without duplicates, exactly the web
    font families named by the string variables whose key starts with
    font-: the first comma-separated part of the value, trimmed and
    stripped of quote characters, when it is non-empty and isWebFont
    accepts it; variables with other keys or other values add nothing. *)
Theorem getThemeFonts_families (fontVariables : list (string * value)) :
  NoDup (getThemeFonts fontVariables)
  /\ forall font,
       font ∈ getThemeFonts fontVariables <->
       exists key text,
         (key, Str text) ∈ fontVariables
         /\ String.prefix "font-" key = true
         /\ font = remove_chars is_quote (BlogApi.trim (first_part text))
         /\ font <> EmptyString /\ isWebFont font = true.
Proof.
  unfold getThemeFonts.
  assert (forall acc, NoDup acc ->
            NoDup (fold_left addThemeFont fontVariables acc)
            /\ forall font,
                 font ∈ fold_left addThemeFont fontVariables acc <->
                 font ∈ acc \/ exists entry, entry ∈ fontVariables
                                  /\ names_web_font entry font) as Hgen.
  { induction fontVariables as [|e vars IH]; intros acc Hnd; cbn [fold_left].
    - split; [done|]. intros font. split; [by left|].
      intros [H|(e & He & _)]; [done|by apply elem_of_nil in He].
    - destruct (IH (addThemeFont acc e) (addThemeFont_NoDup _ _ Hnd)) as [H1 H2].
      split; [done|]. intros font. rewrite H2, addThemeFont_spec. split.
      + intros [[H|H]|(e' & He' & H)]; [by left| |].
        * right. exists e. split; [by left|done].
        * right. exists e'. split; [by right|done].
      + intros [H|(e' & He' & H)]; [by left; left|].
        apply elem_of_cons in He' as [->|He']; [by left; right|].
        right. eauto. }
  destruct (Hgen [] (NoDup_nil_2)) as [Hnd Hmem]. split; [exact Hnd|].
  intros font. rewrite Hmem. split.
  - intros [H|(e & He & key & text & -> & Hrest)]; [by apply elem_of_nil in H|].
    exists key, text. done.
  - intros (key & text & Hin & Hrest). right. exists (key, Str text).
    split; [done|]. exists key, text. done.
Qed.

Example getThemeFonts_example :
  getThemeFonts
    [ ("font-sans", Str "'Open Sans', sans-serif");
      ("font-serif", Str "Georgia, serif");
      ("radius", Str "0.375rem");
      ("font-mono", Str "JetBrains Mono, monospace");
      ("font-display", Str "Open Sans") ]
  = [ "Open Sans"; "JetBrains Mono" ].
Proof. vm_compute. reflexivity. Qed.

End FontsFacts.

(** ** Colour values of the injected theme CSS *)

Module ThemeCssFacts.
Import JS JSFacts BlogApi ThemeCss EditorFacts CookieFacts.

Definition not_close (c : ascii) : bool := negb (Ascii.eqb c ")").

Lemma span_open_spec (s : string) :
  s = fst (span_open s) +:+ snd (span_open s)
  /\ all_chars not_close (fst (span_open s)) = true
  /\ (snd (span_open s) = EmptyString
      \/ exists rest, snd (span_open s) = String ")" rest).
Proof.
  induction s as [|c s (IH1 & IH2 & IH3)]; [by auto|].
  cbn [span_open]. destruct (Ascii.eqb c ")") eqn:Hc.
  - apply Ascii.eqb_eq in Hc as ->. cbn. eauto.
  - destruct (span_open s) as [inner tail]. cbn [fst snd] in *.
    split; [by rewrite IH1 at 1|]. split; [|exact IH3].
    cbn [all_chars]. unfold not_close at 1. by rewrite Hc, IH2.
Qed.

Lemma span_open_app (inner rest : string) :
  all_chars not_close inner = true ->
  span_open (inner +:+ String ")" rest) = (inner, String ")" rest).
Proof.
  induction inner as [|c inner IH]; [reflexivity|].
  cbn [all_chars]. intros [Hc Hall]%andb_prop.
  change (String c inner +:+ String ")" rest)
    with (String c (inner +:+ String ")" rest)).
  cbn [span_open]. unfold not_close in Hc.
  destruct (Ascii.eqb c ")"); [done|]. by rewrite (IH Hall).
Qed.

(** A match at the head of the string is a non-empty group without a
    closing parenthesis, wrapped in [oklch(] and [)]. *)
Lemma match_here_spec (s inner : string) :
  match_here s = Some inner <->
  inner <> EmptyString /\ all_chars not_close inner = true
  /\ exists rest, s = "oklch(" +:+ inner +:+ ")" +:+ rest.
Proof.
  unfold match_here. split.
  - destruct (String.prefix "oklch(" s) eqn:Hp; [|done].
    apply prefix_app in Hp as [post ->].
    change 6 with (String.length "oklch("). rewrite substring_from_app.
    destruct (span_open_spec post) as (H1 & H2 & H3).
    destruct (span_open post) as [inn tail]. cbn [fst snd] in *.
    destruct inn as [|c inn]; [done|]. destruct tail as [|d tail]; [done|].
    intros [= <-]. split; [done|]. split; [done|].
    destruct H3 as [|[rest [= -> ->]]]; [done|]. exists rest. by rewrite H1.
  - intros (Hne & Hall & rest & ->).
    assert (String.prefix "oklch(" ("oklch(" +:+ inner +:+ ")" +:+ rest) = true)
      as -> by (apply prefix_app; eauto).
    change 6 with (String.length "oklch("). rewrite substring_from_app.
    change (")" +:+ rest) with (String ")" rest).
    rewrite (span_open_app _ _ Hall). by destruct inner.
Qed.

Lemma oklch_match_occurs (s inner : string) :
  oklch_match s = Some inner ->
  inner <> EmptyString /\ all_chars not_close inner = true
  /\ exists pre post, s = pre +:+ "oklch(" +:+ inner +:+ ")" +:+ post.
Proof.
  induction s as [|c s IH]; cbn [oklch_match].
  - destruct (match_here EmptyString) eqn:Hm; [|done].
    intros [= ->]. apply match_here_spec in Hm as (? & ? & rest & ?).
    split; [done|]. split; [done|]. by exists EmptyString, rest.
  - destruct (match_here (String c s)) eqn:Hm.
    + intros [= ->]. apply match_here_spec in Hm as (? & ? & rest & ?).
      split; [done|]. split; [done|]. by exists EmptyString, rest.
    + intros (? & ? & pre & post & ->)%IH. split; [done|]. split; [done|].
      by exists (String c pre), post.
Qed.

(** X25.  A value that starts with an oklch colour is replaced by the
    text between the parentheses, whatever follows the closing
    parenthesis; the text is any non-empty string without a closing
    parenthesis. *)
Theorem processColorValue_unwraps (inner rest : string) :
  inner <> EmptyString ->
  all_chars not_close inner = true ->
  processColorValue ("oklch(" +:+ inner +:+ ")" +:+ rest) = inner.
Proof.
  intros Hne Hall. unfold processColorValue.
  assert (match_here ("oklch(" +:+ inner +:+ ")" +:+ rest) = Some inner) as Hm
    by (apply match_here_spec; eauto).
  change ("oklch(" +:+ inner +:+ ")" +:+ rest)
    with (String "o" ("klch(" +:+ inner +:+ ")" +:+ rest)) in *.
  cbn [oklch_match]. by rewrite Hm.
Qed.

Lemma processColorValue_unwraps_witness :
  processColorValue "oklch(0.6231 0.1880 259.8145)" = "0.6231 0.1880 259.8145".
Proof.
  apply (processColorValue_unwraps "0.6231 0.1880 259.8145" EmptyString);
    [discriminate|reflexivity].
Defined.

(** X26.  processColorValue either returns the value unchanged or returns
    a non-empty text without a closing parenthesis that the value wraps
    in oklch( and ); a value that nowhere contains oklch( is always
    returned unchanged. *)
Theorem processColorValue_sound (value : string) :
  (processColorValue value = value
   \/ (processColorValue value <> EmptyString
       /\ all_chars not_close (processColorValue value) = true
       /\ exists pre post,
            value = pre +:+ "oklch(" +:+ processColorValue value +:+ ")" +:+ post))
  /\ (includes value "oklch(" = false -> processColorValue value = value).
Proof.
  unfold processColorValue. destruct (oklch_match value) as [inner|] eqn:Hm.
  - apply oklch_match_occurs in Hm as (Hne & Hall & pre & post & Hv).
    split; [right; eauto|]. intros Hinc.
    assert (includes value "oklch(" = true) as Hyes.
    { apply includes_spec. exists pre, (inner +:+ ")" +:+ post).
      exact Hv. }
    congruence.
  - split; [by left|done].
Qed.

Example processColorValue_examples :
  processColorValue "#ff0000" = "#ff0000"
  /\ processColorValue "oklch()" = "oklch()"
  /\ processColorValue "oklch(0.5 0.1 20" = "oklch(0.5 0.1 20"
  /\ processColorValue "1px solid oklch(0.9 0 0) inset" = "0.9 0 0"
  /\ processColorValue "oklch(oklch(1 0 0)" = "oklch(1 0 0".
Proof. vm_compute. repeat split. Qed.

End ThemeCssFacts.

(** ** Pagination of the blog list *)

Module PaginationFacts.
Import Pagination.
Local Open Scope nat_scope.








Example getPageNumbers_examples :
  getPageNumbers 0 1 = []
  /\ getPageNumbers 7 4 = map Page [1; 2; 3; 4; 5; 6; 7]
  /\ getPageNumbers 8 1 = [Page 1; Page 2; Ellipsis; Page 8]
  /\ getPageNumbers 8 3 = [Page 1; Page 2; Page 3; Page 4; Ellipsis; Page 8]
  /\ getPageNumbers 8 6 = [Page 1; Ellipsis; Page 5; Page 6; Page 7; Page 8]
  /\ getPageNumbers 8 8 = [Page 1; Ellipsis; Page 7; Page 8].
Proof. repeat split. Qed.

(** *** The posts of a page *)

Lemma totalPages_spec (count pages : nat) :
  count <= pages * POSTS_PER_PAGE <-> totalPages count <= pages.
Proof.
  unfold totalPages, POSTS_PER_PAGE. cbn [Nat.sub].
  pose proof (Nat.div_mod_eq (count + 8) 9) as Hd.
  pose proof (Nat.mod_upper_bound (count + 8) 9 ltac:(lia)) as Hm.
  lia.
Qed.

Lemma concat_pages {A : Type} (posts : list A) (k first : nat) :
  concat (map (currentPosts posts) (seq (S first) k))
  = firstn (k * POSTS_PER_PAGE) (skipn (first * POSTS_PER_PAGE) posts).
Proof.
  revert first. induction k as [|k IH]; intros first; [reflexivity|].
  cbn [seq map concat]. rewrite IH. unfold currentPosts, POSTS_PER_PAGE.
  replace (S first - 1) with first by lia.
  set (rest := skipn (first * 9) posts).
  replace (skipn (S first * 9) posts) with (skipn 9 rest).
  2: { unfold rest. rewrite skipn_skipn. f_equal; lia. }
  replace (S k * 9) with (9 + k * 9) by lia.
  rewrite <- (firstn_skipn 9 rest) at 3.
  rewrite firstn_app, firstn_firstn, length_firstn.
  destruct (Nat.le_gt_cases 9 (length rest)) as [Hle|Hgt].
  - rewrite Nat.min_r by lia. rewrite Nat.min_l by exact Hle. f_equal.
    f_equal. lia.
  - rewrite (skipn_all2 (n := 9)) by lia.
    rewrite !firstn_nil, Nat.min_r by lia. reflexivity.
Qed.

(** X28.  The pages of the blog index partition the posts: pages 1 to
    totalPages, one after the other, give back the posts in their order,
    and no page holds more than POSTS_PER_PAGE (nine) posts. *)
Theorem pages_partition_posts {A : Type} (posts : list A) :
  concat (map (currentPosts posts) (seq 1 (totalPages (length posts)))) = posts
  /\ forall currentPage,
       length (currentPosts posts currentPage) <= POSTS_PER_PAGE.
Proof.
  split.
  - rewrite concat_pages. cbn [Nat.mul skipn]. apply firstn_all2.
    by apply totalPages_spec.
  - intros page. unfold currentPosts. rewrite length_firstn. lia.
Qed.

(** X29.  A page from 1 on holds a post exactly when it is one of the
    totalPages pages: no page within the count is empty and every page
    beyond it is. *)
Theorem page_nonempty_iff {A : Type} (posts : list A) (currentPage : nat) :
  1 <= currentPage ->
  currentPosts posts currentPage <> [] <->
  currentPage <= totalPages (length posts).
Proof.
  intros H1. unfold currentPosts.
  assert (currentPage <= totalPages (length posts)
          <-> (currentPage - 1) * POSTS_PER_PAGE < length posts) as ->.
  { pose proof (totalPages_spec (length posts) (currentPage - 1)) as Hs. lia. }
  rewrite <- length_zero_iff_nil, length_firstn, length_skipn.
  unfold POSTS_PER_PAGE. lia.
Qed.

Lemma page_nonempty_iff_witness :
  1 <= 3 /\ currentPosts (seq 0 19) 3 <> [].
Proof.
  split; [lia|]. apply (page_nonempty_iff (seq 0 19) 3); [lia|].
  vm_compute. lia.
Defined.

Example last_page_and_beyond :
  currentPosts (seq 0 19) 3 = [18] /\ currentPosts (seq 0 19) 4 = []
  /\ totalPages 19 = 3 /\ totalPages 18 = 2 /\ totalPages 0 = 0.
Proof. repeat split. Qed.

End PaginationFacts.
